(** * Context-MCP: document store, search index and filesystem reconciler

    A shallow embedding of [src/lib/SearchIndex.ts] (classes [SearchIndex]
    and [DocumentStore]) and of [src/lib/FileWatcher.ts]
    ([handleFileAdded]), with the properties of the specification that
    concern them.

    Conventions.
    - A JavaScript string is its sequence of UTF-16 code units
      ([jsstring]); [String.prototype.length] is the length of that list.
    - A JavaScript [Map] is an insertion-ordered association list
      ([JsMap]).
    - The disk maps file paths to typed file contents ([JsMap File]);
      [JSON.stringify]/[JSON.parse] are taken to round-trip, so a file
      holds the value that was serialised into it.
    - [async] methods are run to completion one after the other: a method
      is a function from the state before to the result and state after.
    - What the environment decides during a call (the identifier drawn by
      [nanoid], the readings of the clock, whether a write succeeds) is
      an explicit argument [Env]. *)

From stdpp Require Import base option numbers list strings.
From Stdlib Require Import NArith ZArith Lia.

Local Open Scope N_scope.

(** ** JavaScript strings *)

Abbreviation jsstring := (list N).

Module Js.

(** A literal: every character of an ASCII Rocq string is one code unit. *)
Fixpoint lit (s : string) : jsstring :=
  match s with
  | EmptyString => []
  | String a s' => Ascii.N_of_ascii a :: lit s'
  end.

(** The regular-expression class [\s], which is also the set of code
    units removed by [String.prototype.trim]: WhiteSpace and
    LineTerminator of ECMA-262. *)
Definition is_space (c : N) : bool :=
  ((9 <=? c) && (c <=? 13)) || (c =? 32) || (c =? 160) || (c =? 5760)
  || ((8192 <=? c) && (c <=? 8202)) || (c =? 8232) || (c =? 8233)
  || (c =? 8239) || (c =? 8287) || (c =? 12288) || (c =? 65279).

(** The class [\w]: [A-Za-z0-9_]. *)
Definition is_word (c : N) : bool :=
  ((48 <=? c) && (c <=? 57)) || ((65 <=? c) && (c <=? 90))
  || (c =? 95) || ((97 <=? c) && (c <=? 122)).

Definition SPACE : N := 32.
Definition HYPHEN : N := 45.
Definition UNDERSCORE : N := 95.
Definition SLASH : N := 47.

Fixpoint trimStart (s : jsstring) : jsstring :=
  match s with
  | [] => []
  | c :: s' => if is_space c then trimStart s' else s
  end.

Definition trimEnd (s : jsstring) : jsstring := rev (trimStart (rev s)).

(** [s.trim()] *)
Definition trim (s : jsstring) : jsstring := trimEnd (trimStart s).

(** [s.replace(/[^\w\s\-_]/g, ' ')] *)
Definition replace_special (s : jsstring) : jsstring :=
  map (fun c => if is_word c || is_space c || (c =? HYPHEN) || (c =? UNDERSCORE)
                then c else SPACE) s.

(** [s.replace(/\s+/g, ' ')]: every maximal run of [\s] becomes one
    space.  [in_run] tells that the previous code unit was in [\s]. *)
Fixpoint collapse_from (in_run : bool) (s : jsstring) : jsstring :=
  match s with
  | [] => []
  | c :: s' =>
      if is_space c
      then (if in_run then collapse_from true s' else SPACE :: collapse_from true s')
      else c :: collapse_from false s'
  end.

Definition collapse_spaces (s : jsstring) : jsstring := collapse_from false s.

(** [s.split(sep)] for a one-character separator, generalised to a
    class of separator characters: every separator character ends a
    piece, so adjacent separators give empty pieces. *)
Fixpoint split_on (sep : N -> bool) (s : jsstring) : list jsstring :=
  match s with
  | [] => [[]]
  | c :: s' =>
      if sep c then [] :: split_on sep s'
      else match split_on sep s' with
           | w :: ws => (c :: w) :: ws
           | [] => [[c]]
           end
  end.

(** [s.split(/\s+/)]: the separators are the maximal runs of [\s]; a
    leading or trailing run leaves an empty first or last piece. *)
Fixpoint split_runs_from (in_run : bool) (s : jsstring) : list jsstring :=
  match s with
  | [] => [[]]
  | c :: s' =>
      if is_space c
      then (if in_run then split_runs_from true s' else [] :: split_runs_from true s')
      else match split_runs_from false s' with
           | w :: ws => (c :: w) :: ws
           | [] => [[c]]
           end
  end.

Definition split_ws (s : jsstring) : list jsstring := split_runs_from false s.

(** [word => word.length > 0] *)
Definition nonempty (w : jsstring) : bool :=
  match w with [] => false | _ => true end.

(** [ws.join(' ')] *)
Fixpoint join_sp (ws : list jsstring) : jsstring :=
  match ws with
  | [] => []
  | [w] => w
  | w :: ws' => w ++ SPACE :: join_sp ws'
  end.

(** [Buffer.byteLength(s, 'utf8')]: one to three bytes for a code unit
    of the basic plane, four for a surrogate pair, three (U+FFFD) for an
    unpaired surrogate. *)
Definition is_high_surrogate (c : N) : bool := (55296 <=? c) && (c <=? 56319).
Definition is_low_surrogate (c : N) : bool := (56320 <=? c) && (c <=? 57343).

Fixpoint byteLength (s : jsstring) : N :=
  match s with
  | [] => 0
  | c :: s' =>
      if c <? 128 then 1 + byteLength s'
      else if c <? 2048 then 2 + byteLength s'
      else if is_high_surrogate c then
        match s' with
        | c' :: s'' => if is_low_surrogate c' then 4 + byteLength s''
                       else 3 + byteLength s'
        | [] => 3
        end
      else 3 + byteLength s'
  end.

(** [arr.slice(0, e)] and [s.slice(0, e)] for an integer [e]: a negative
    [e] counts from the end. *)
Definition slice0 {A} (e : Z) (l : list A) : list A :=
  if (e <? 0)%Z then take (Z.to_nat (Z.of_nat (length l) + e)) l
  else take (Z.to_nat e) l.

(** [path.basename(p)] of Node's POSIX [path]: trailing slashes are
    dropped and the part after the last remaining slash is returned. *)
Fixpoint drop_slashes (s : jsstring) : jsstring :=
  match s with
  | [] => []
  | c :: s' => if c =? SLASH then drop_slashes s' else s
  end.

Fixpoint until_slash (s : jsstring) : jsstring :=
  match s with
  | [] => []
  | c :: s' => if c =? SLASH then [] else c :: until_slash s'
  end.

Definition basename (p : jsstring) : jsstring :=
  rev (until_slash (drop_slashes (rev p))).

(** [path.join(a, b, c)] on segments that need no normalisation. *)
Definition path_join3 (a b c : jsstring) : jsstring :=
  a ++ SLASH :: b ++ SLASH :: c.

End Js.


(** ** JavaScript [Map]: an insertion-ordered association list *)

Abbreviation JsMap V := (list (jsstring * V)).

Module JsMap.
Section Ops.
Context {V : Type}.

Fixpoint get (k : jsstring) (m : JsMap V) : option V :=
  match m with
  | [] => None
  | (k', v) :: m' => if decide (k = k') then Some v else get k m'
  end.

Definition has (k : jsstring) (m : JsMap V) : bool :=
  match get k m with Some _ => true | None => false end.

(** [m.set(k, v)]: an existing key keeps its position. *)
Fixpoint set (k : jsstring) (v : V) (m : JsMap V) : JsMap V :=
  match m with
  | [] => [(k, v)]
  | (k', v') :: m' =>
      if decide (k = k') then (k, v) :: m' else (k', v') :: set k v m'
  end.

(** [m.delete(k)]: what is left has no entry for [k]. *)
Definition delete (k : jsstring) (m : JsMap V) : JsMap V :=
  List.filter (fun kv => negb (bool_decide (kv.1 = k))) m.

(** [Array.from(m.values())] *)
Definition values (m : JsMap V) : list V := map snd m.

End Ops.
End JsMap.

(** ** Data model ([src/types/index.ts]) *)

Inductive DocType := txt | md | pdf | docx | html | json.

(** A value of a format-specific metadata field. *)
Inductive JsValue :=
| JsStr (s : jsstring)
| JsNum (z : Z)
| JsBool (b : bool)
| JsStrs (l : list jsstring).

(** [Document['metadata']]; numbers are integers here. *)
Record Metadata := {
  md_createdAt : jsstring;
  md_updatedAt : jsstring;
  md_size : Z;
  md_tags : option (list jsstring);
  md_summary : option jsstring;
  md_wordCount : option Z;
  md_charCount : option Z;
  md_extra : JsMap JsValue
}.

(** [Partial<Document['metadata']>]: [None] is an absent property. *)
Record PartialMetadata := {
  pm_createdAt : option jsstring;
  pm_updatedAt : option jsstring;
  pm_size : option Z;
  pm_tags : option (list jsstring);
  pm_summary : option jsstring;
  pm_wordCount : option Z;
  pm_charCount : option Z;
  pm_extra : JsMap JsValue
}.

Record Document := {
  doc_id : jsstring;
  doc_title : jsstring;
  doc_content : jsstring;
  doc_path : jsstring;
  doc_type : DocType;
  doc_metadata : Metadata
}.

(** [Partial<Document>] *)
Record PartialDocument := {
  pd_id : option jsstring;
  pd_title : option jsstring;
  pd_content : option jsstring;
  pd_path : option jsstring;
  pd_type : option DocType;
  pd_metadata : option PartialMetadata
}.

Record IndexEntry := {
  ie_id : jsstring;
  ie_title : jsstring;
  ie_content : jsstring;
  ie_tags : list jsstring
}.

Record ProcessedFile := {
  pf_content : jsstring;
  pf_type : DocType;
  pf_metadata : option PartialMetadata
}.

(** The [error] string of a failed result. *)
Inductive ErrorMsg :=
| DocumentNotFound (id : jsstring)        (* `Document not found: ${id}` *)
| DocumentFileMissing (id : jsstring)     (* `Document file missing: ${id}` *)
| NoDocumentForPath (p : jsstring)        (* `No document found for path: ${p}` *)
| NotFoundInIndex (id : jsstring)         (* `Document not found in index: ${id}` *)
| Caught.                                 (* the message of a caught exception *)

(** [OperationResult<T>]: [{success: true, data}] or [{success: false, error}]. *)
Inductive OperationResult (T : Type) :=
| Success (data : T)
| Failure (error : ErrorMsg).
Arguments Success {T} data.
Arguments Failure {T} error.

Definition succeeded {T} (r : OperationResult T) : bool :=
  match r with Success _ => true | Failure _ => false end.

(** The outcome of a method that may throw. *)
Inductive Completion (T : Type) :=
| Returned (v : T)
| Thrown.
Arguments Returned {T} v.
Arguments Thrown {T}.

(** [{ ...a, ...b }] on the open part of the metadata. *)
Definition spread_extra (a b : JsMap JsValue) : JsMap JsValue :=
  fold_left (fun m kv => JsMap.set kv.1 kv.2 m) b a.

Definition override {A} (o : option A) (a : A) : A :=
  match o with Some x => x | None => a end.

Definition override_opt {A} (o : option A) (a : option A) : option A :=
  match o with Some x => Some x | None => a end.

(** [{ ...base, ...over }] *)
Definition spread_metadata (base : Metadata) (over : PartialMetadata) : Metadata :=
  {| md_createdAt := override (pm_createdAt over) (md_createdAt base);
     md_updatedAt := override (pm_updatedAt over) (md_updatedAt base);
     md_size := override (pm_size over) (md_size base);
     md_tags := override_opt (pm_tags over) (md_tags base);
     md_summary := override_opt (pm_summary over) (md_summary base);
     md_wordCount := override_opt (pm_wordCount over) (md_wordCount base);
     md_charCount := override_opt (pm_charCount over) (md_charCount base);
     md_extra := spread_extra (md_extra base) (pm_extra over) |}.

(** [{ ...base, ...over }] where [over] may be [undefined]. *)
Definition spread_metadata_opt (base : Metadata) (over : option PartialMetadata) : Metadata :=
  match over with Some o => spread_metadata base o | None => base end.

(** ** The environment of a call *)

Record Env := {
  (** whether [fs.writeFile] to a path succeeds *)
  write_ok : jsstring -> bool;
  (** whether [fs.unlink] of an existing file succeeds *)
  unlink_ok : jsstring -> bool;
  (** the identifier [nanoid()] returns *)
  nanoid : jsstring;
  (** [new Date().toISOString()], by the number of earlier readings *)
  clock : nat -> jsstring
}.

(** ** Primitives of the platform

    The text-indexing library (lunr) and [String.prototype.toLowerCase],
    whose Unicode tables are not part of the repository.  Of lunr, only
    [this.add] and [index.search] are taken to throw; an index that was
    serialised with [toJSON] is the one [lunr.Index.load] gives back. *)

Record LunrDoc := {
  ld_id : jsstring;
  ld_title : jsstring;
  ld_content : jsstring;
  ld_tags : jsstring
}.

Record Platform := {
  Score : Type;
  LunrIndex : Type;
  LunrBuilder : Type;
  (** the builder configured by [this.ref('id')] and the three
      [this.field] calls *)
  lunr_builder : LunrBuilder;
  (** [this.add(doc)]; [None] when it throws *)
  lunr_add : LunrBuilder -> LunrDoc -> option LunrBuilder;
  lunr_build : LunrBuilder -> LunrIndex;
  (** [index.search(q)]: the hits [{ref, score}] in rank order; [None]
      when it throws *)
  lunr_search : LunrIndex -> jsstring -> option (list (jsstring * Score));
  toLowerCase : jsstring -> jsstring
}.

(** ** The disk *)

(** What a file holds: the value [JSON.stringify] was given. *)
Inductive File (P : Platform) :=
| DocFile (d : Document)                                 (* documents/<id>.json *)
| ManifestFile (ds : list Document)                      (* metadata/documents.json *)
| IndexFile (idx : LunrIndex P) (docs : list IndexEntry) (* index/search.json *)
| OtherFile.
Arguments DocFile {P} d.
Arguments ManifestFile {P} ds.
Arguments IndexFile {P} idx docs.
Arguments OtherFile {P}.

(** [fs.writeFile(p, f)]; [None] when it throws. *)
Definition writeFile {P} (E : Env) (p : jsstring) (f : File P)
    (fs : JsMap (File P)) : option (JsMap (File P)) :=
  if write_ok E p then Some (JsMap.set p f fs) else None.

(** [await fs.unlink(p)] inside a [try] whose [catch] swallows the error. *)
Definition unlink_caught {P} (E : Env) (p : jsstring)
    (fs : JsMap (File P)) : JsMap (File P) :=
  if unlink_ok E p then JsMap.delete p fs else fs.

(** [fs.access(p)] succeeds. *)
Definition access {P} (p : jsstring) (fs : JsMap (File P)) : bool :=
  JsMap.has p fs.

(** ** [class SearchIndex] ([src/lib/SearchIndex.ts]) *)

Record SearchResult (P : Platform) := {
  res_id : jsstring;
  res_title : jsstring;
  res_score : Score P;
  res_snippet : jsstring
  (* [metadata: {}], filled in by the caller *)
}.
Arguments res_id {P} _.
Arguments res_title {P} _.
Arguments res_score {P} _.
Arguments res_snippet {P} _.

Module SearchIndex.
Section WithPlatform.
Context {P : Platform}.

Record t := {
  index : option (LunrIndex P);
  documents : JsMap IndexEntry;
  indexPath : jsstring
}.

Definition with_index (i : option (LunrIndex P)) (s : t) : t :=
  {| index := i; documents := documents s; indexPath := indexPath s |}.

Definition with_documents (m : JsMap IndexEntry) (s : t) : t :=
  {| index := index s; documents := m; indexPath := indexPath s |}.

Definition ELLIPSIS : jsstring := Js.lit "...".

(** [constructor(basePath)] *)
Definition new (basePath : jsstring) : t :=
  {| index := None; documents := [];
     indexPath := Js.path_join3 basePath (Js.lit "index") (Js.lit "search.json") |}.

(** [new Map(docs.map(d => [d.id, d]))] *)
Definition map_of_entries (docs : list IndexEntry) : JsMap IndexEntry :=
  fold_left (fun m d => JsMap.set (ie_id d) d m) docs [].

Definition loadIndex (s : t) (fs : JsMap (File P)) : t :=
  match JsMap.get (indexPath s) fs with
  | Some (IndexFile idx docs) =>
      with_documents (map_of_entries docs) (with_index (Some idx) s)
  | _ => with_index None (with_documents [] s)
  end.

Definition initialize (s : t) (fs : JsMap (File P)) : OperationResult unit * t :=
  (Success tt, loadIndex s fs).

Definition saveIndex (E : Env) (s : t) (fs : JsMap (File P))
    : Completion unit * JsMap (File P) :=
  match index s with
  | None => (Returned tt, fs)
  | Some idx =>
      match writeFile E (indexPath s) (IndexFile idx (JsMap.values (documents s))) fs with
      | Some fs' => (Returned tt, fs')
      | None => (Thrown, fs)
      end
  end.

(** [private truncateContent(content, maxLength)] *)
Definition truncateContent (content : jsstring) (maxLength : N) : jsstring :=
  if N.of_nat (length content) <=? maxLength then content
  else take (N.to_nat maxLength) content ++ ELLIPSIS.

(** The entry built from a document by [addDocument] and by
    [rebuildFromDocuments]. *)
Definition entry_of (doc : Document) : IndexEntry :=
  {| ie_id := doc_id doc;
     ie_title := doc_title doc;
     ie_content := truncateContent (doc_content doc) 10000;
     ie_tags := match md_tags (doc_metadata doc) with Some l => l | None => [] end |}.

(** The object handed to [this.add]. *)
Definition lunr_doc (e : IndexEntry) : LunrDoc :=
  {| ld_id := ie_id e; ld_title := ie_title e; ld_content := ie_content e;
     ld_tags := Js.join_sp (ie_tags e) |}.

(** One round of the [forEach], with its [try]/[catch]. *)
Definition add_caught (b : LunrBuilder P) (e : IndexEntry) : LunrBuilder P :=
  match lunr_add P b (lunr_doc e) with Some b' => b' | None => b end.

Definition rebuildIndex (E : Env) (s : t) (fs : JsMap (File P))
    : Completion unit * t * JsMap (File P) :=
  let docs := JsMap.values (documents s) in
  match docs with
  | [] =>
      let s' := with_index None s in
      let '(c, fs') := saveIndex E s' fs in (c, s', fs')
  | _ =>
      let idx := lunr_build P (fold_left add_caught docs (lunr_builder P)) in
      let s' := with_index (Some idx) s in
      let '(c, fs') := saveIndex E s' fs in (c, s', fs')
  end.

Definition addDocument (E : Env) (doc : Document) (s : t) (fs : JsMap (File P))
    : OperationResult unit * t * JsMap (File P) :=
  let s1 := with_documents (JsMap.set (doc_id doc) (entry_of doc) (documents s)) s in
  match rebuildIndex E s1 fs with
  | (Returned _, s2, fs2) => (Success tt, s2, fs2)
  | (Thrown, s2, fs2) => (Failure Caught, s2, fs2)
  end.

Definition updateDocument (E : Env) (doc : Document) (s : t) (fs : JsMap (File P))
    : OperationResult unit * t * JsMap (File P) :=
  addDocument E doc s fs.

Definition removeDocument (E : Env) (id : jsstring) (s : t) (fs : JsMap (File P))
    : OperationResult unit * t * JsMap (File P) :=
  if negb (JsMap.has id (documents s)) then (Failure (NotFoundInIndex id), s, fs)
  else
    let s1 := with_documents (JsMap.delete id (documents s)) s in
    match rebuildIndex E s1 fs with
    | (Returned _, s2, fs2) => (Success tt, s2, fs2)
    | (Thrown, s2, fs2) => (Failure Caught, s2, fs2)
    end.

(** [private cleanQuery(query)] *)
Definition cleanQuery (query : jsstring) : jsstring :=
  let cleaned :=
    Js.trim (Js.collapse_spaces (Js.replace_special (Js.trim query))) in
  match cleaned with
  | [] => []
  | _ =>
      let words := List.filter Js.nonempty (Js.split_on (N.eqb Js.SPACE) cleaned) in
      match words with
      | [w] => if (2 <? length w)%nat then w ++ Js.lit "* " ++ w else cleaned
      | _ => cleaned
      end
  end.

(** [s.indexOf(needle)]; [None] is [-1]. *)
Fixpoint starts_with (needle s : jsstring) : bool :=
  match needle, s with
  | [], _ => true
  | a :: n', b :: s' => (a =? b) && starts_with n' s'
  | _ :: _, [] => false
  end.

Fixpoint indexOf (needle s : jsstring) : option nat :=
  if starts_with needle s then Some 0%nat
  else match s with
       | [] => None
       | _ :: s' => S <$> indexOf needle s'
       end.

(** The [for] loop of [extractSnippet]: the earliest occurrence of a
    query word, the first such word on ties. *)
Definition best_match (lowerContent : jsstring) (queryWords : list jsstring)
    : option (nat * jsstring) :=
  fold_left
    (fun best word =>
       match indexOf word lowerContent with
       | Some i =>
           match best with
           | None => Some (i, word)
           | Some (bi, _) => if (i <? bi)%nat then Some (i, word) else best
           end
       | None => best
       end)
    queryWords None.

(** [private extractSnippet(content, query)], with the default
    [contextLength = 150] of its only call. *)
Definition extractSnippet (content query : jsstring) : jsstring :=
  let lowerContent := toLowerCase P content in
  let queryWords :=
    List.filter (fun w => (1 <? length w)%nat) (Js.split_ws (toLowerCase P query)) in
  match best_match lowerContent queryWords with
  | None => truncateContent content 150 ++ ELLIPSIS
  | Some (bestIndex, bestWord) =>
      let start := (bestIndex - 75)%nat in
      let stop := Nat.min (length content) (bestIndex + length bestWord + 75) in
      let snippet := take (stop - start) (drop start content) in
      let snippet := if (0 <? start)%nat then ELLIPSIS ++ snippet else snippet in
      if (stop <? length content)%nat then snippet ++ ELLIPSIS else snippet
  end.

(** The callback of [.map] in [search]; [None] is [null]. *)
Definition hit_result (s : t) (query : jsstring) (hit : jsstring * Score P)
    : option (SearchResult P) :=
  match JsMap.get hit.1 (documents s) with
  | None => None
  | Some doc =>
      Some {| res_id := ie_id doc; res_title := ie_title doc; res_score := hit.2;
              res_snippet := extractSnippet (ie_content doc) query |}
  end.

(** [search(query, limit)].  The second component lists the queries
    handed to [index.search], in order: it is empty exactly when the
    text-indexing primitive was not invoked. *)
Definition search (s : t) (query : jsstring) (limit : Z)
    : OperationResult (list (SearchResult P)) * list jsstring :=
  match index s, Js.trim query with
  | None, _ | _, [] => (Success [], [])
  | Some idx, _ :: _ =>
      match cleanQuery query with
      | [] => (Success [], [])
      | q =>
          match lunr_search P idx q with
          | None => (Failure Caught, [q])
          | Some results =>
              (Success (omap (hit_result s query) (Js.slice0 limit results)), [q])
          end
      end
  end.

Definition rebuildFromDocuments (E : Env) (docs : list Document) (s : t)
    (fs : JsMap (File P))
    : OperationResult unit * t * JsMap (File P) :=
  let m := fold_left (fun m doc => JsMap.set (doc_id doc) (entry_of doc) m) docs [] in
  match rebuildIndex E (with_documents m s) fs with
  | (Returned _, s2, fs2) => (Success tt, s2, fs2)
  | (Thrown, s2, fs2) => (Failure Caught, s2, fs2)
  end.

Definition clearIndex (E : Env) (s : t) (fs : JsMap (File P))
    : OperationResult unit * t * JsMap (File P) :=
  (Success tt, with_index None (with_documents [] s), unlink_caught E (indexPath s) fs).

End WithPlatform.
Arguments t : clear implicits.
End SearchIndex.

(** ** JSON values

    What [JSON.parse] gives back for what [JSON.stringify] wrote of a
    document; numbers are integers here. *)

#[local] Unset Elimination Schemes.
Inductive Json :=
| JNull
| JBool (b : bool)
| JNumber (z : Z)
| JString (s : jsstring)
| JArray (items : list Json)
| JObject (fields : list (jsstring * Json)).
#[local] Set Elimination Schemes.

(** [j.k], [None] being [undefined]: only an object has the properties
    read here. *)
Definition json_field (k : jsstring) (j : Json) : option Json :=
  match j with
  | JObject fields => JsMap.get k fields
  | _ => None
  end.

(** [typeof v === 'string'] and [typeof v === 'number'] *)
Definition is_json_string (v : option Json) : bool :=
  match v with Some (JString _) => true | _ => false end.

Definition is_json_number (v : option Json) : bool :=
  match v with Some (JNumber _) => true | _ => false end.

(** The strings of [Document['type']]. *)
Definition type_name (t : DocType) : jsstring :=
  match t with
  | txt => Js.lit "txt"
  | md => Js.lit "md"
  | pdf => Js.lit "pdf"
  | docx => Js.lit "docx"
  | html => Js.lit "html"
  | json => Js.lit "json"
  end.

Definition json_of_value (v : JsValue) : Json :=
  match v with
  | JsStr s => JString s
  | JsNum z => JNumber z
  | JsBool b => JBool b
  | JsStrs l => JArray (map JString l)
  end.

(** An optional property: left out when [undefined]. *)
Definition json_optional (k : jsstring) (v : option Json) (fields : JsMap Json)
    : JsMap Json :=
  match v with Some j => JsMap.set k j fields | None => fields end.

(** The object a metadata record is written as. *)
Definition json_of_metadata (m : Metadata) : Json :=
  JObject
    (json_optional (Js.lit "charCount") (JNumber <$> md_charCount m)
    (json_optional (Js.lit "wordCount") (JNumber <$> md_wordCount m)
    (json_optional (Js.lit "summary") (JString <$> md_summary m)
    (json_optional (Js.lit "tags") ((fun l => JArray (map JString l)) <$> md_tags m)
    (JsMap.set (Js.lit "size") (JNumber (md_size m))
    (JsMap.set (Js.lit "updatedAt") (JString (md_updatedAt m))
    (JsMap.set (Js.lit "createdAt") (JString (md_createdAt m))
       (map (fun kv => (kv.1, json_of_value kv.2)) (md_extra m))))))))).

(** The object a document is written as. *)
Definition json_of_document (d : Document) : Json :=
  JObject
    [(Js.lit "id", JString (doc_id d));
     (Js.lit "title", JString (doc_title d));
     (Js.lit "content", JString (doc_content d));
     (Js.lit "path", JString (doc_path d));
     (Js.lit "type", JString (type_name (doc_type d)));
     (Js.lit "metadata", json_of_metadata (doc_metadata d))].

(** ** [class DocumentStore] ([src/lib/SearchIndex.ts], second part) *)

Module DocumentStore.
Section WithPlatform.
Context {P : Platform}.

Record t := {
  basePath : jsstring;
  metadata : JsMap Document
}.

Definition with_metadata (m : JsMap Document) (s : t) : t :=
  {| basePath := basePath s; metadata := m |}.

Definition new (basePath : jsstring) : t :=
  {| basePath := basePath; metadata := [] |}.

Definition metadataPath (s : t) : jsstring :=
  Js.path_join3 (basePath s) (Js.lit "metadata") (Js.lit "documents.json").

(** [path.join(this.basePath, 'documents', `${id}.json`)] *)
Definition docPath (s : t) (id : jsstring) : jsstring :=
  Js.path_join3 (basePath s) (Js.lit "documents") (id ++ Js.lit ".json").

(** [private saveMetadata()]; [None] when it throws. *)
Definition saveMetadata (E : Env) (s : t) (fs : JsMap (File P))
    : option (JsMap (File P)) :=
  writeFile E (metadataPath s) (ManifestFile (JsMap.values (metadata s))) fs.

(** [metadata?.tags?.[0] || filename] *)
Definition initial_title (meta : option PartialMetadata) (filename : jsstring) : jsstring :=
  match meta with
  | Some m =>
      match pm_tags m with
      | Some (tag :: _) => match tag with [] => filename | _ => tag end
      | _ => filename
      end
  | None => filename
  end.

(** [content.split(/\s+/).filter(word => word.length > 0).length] *)
Definition count_words (content : jsstring) : nat :=
  length (List.filter Js.nonempty (Js.split_ws content)).

(** The record [addDocument] builds. *)
Definition new_document (E : Env) (filePath content : jsstring) (type : DocType)
    (meta : option PartialMetadata) : Document :=
  {| doc_id := nanoid E;
     doc_title := initial_title meta (Js.basename filePath);
     doc_content := content;
     doc_path := filePath;
     doc_type := type;
     doc_metadata :=
       spread_metadata_opt
         {| md_createdAt := clock E 0;
            md_updatedAt := clock E 1;
            md_size := Z.of_N (Js.byteLength content);
            md_tags := None;
            md_summary := None;
            md_wordCount := Some (Z.of_nat (count_words content));
            md_charCount := Some (Z.of_nat (length content));
            md_extra := [] |}
         meta |}.

Definition addDocument (E : Env) (filePath content : jsstring) (type : DocType)
    (meta : option PartialMetadata) (s : t) (fs : JsMap (File P))
    : OperationResult Document * t * JsMap (File P) :=
  let doc := new_document E filePath content type meta in
  match writeFile E (docPath s (doc_id doc)) (DocFile doc) fs with
  | None => (Failure Caught, s, fs)
  | Some fs1 =>
      let s1 := with_metadata (JsMap.set (doc_id doc) doc (metadata s)) s in
      match saveMetadata E s1 fs1 with
      | None => (Failure Caught, s1, fs1)
      | Some fs2 => (Success doc, s1, fs2)
      end
  end.

(** The [catch] block shared by [getDocument] and [getDocumentByPath]:
    the durable slot is gone, the record is evicted. *)
Definition evict (E : Env) (id : jsstring) (s : t) (fs : JsMap (File P))
    : OperationResult Document * t * JsMap (File P) :=
  let s1 := with_metadata (JsMap.delete id (metadata s)) s in
  match saveMetadata E s1 fs with
  | None => (Failure Caught, s1, fs)
  | Some fs1 => (Failure (DocumentFileMissing id), s1, fs1)
  end.

Definition getDocument (E : Env) (id : jsstring) (s : t) (fs : JsMap (File P))
    : OperationResult Document * t * JsMap (File P) :=
  match JsMap.get id (metadata s) with
  | None => (Failure (DocumentNotFound id), s, fs)
  | Some doc =>
      if access (docPath s id) fs then (Success doc, s, fs)
      else evict E id s fs
  end.

(** The first record, in insertion order, whose [path] is [filePath]. *)
Definition find_by_path (filePath : jsstring) (m : JsMap Document) : option Document :=
  List.find (fun doc => bool_decide (doc_path doc = filePath)) (JsMap.values m).

Definition getDocumentByPath (E : Env) (filePath : jsstring) (s : t)
    (fs : JsMap (File P))
    : OperationResult Document * t * JsMap (File P) :=
  match find_by_path filePath (metadata s) with
  | Some doc =>
      if access (docPath s (doc_id doc)) fs then (Success doc, s, fs)
      else evict E (doc_id doc) s fs
  | None => (Failure (NoDocumentForPath filePath), s, fs)
  end.

Definition getAllDocuments (s : t) : OperationResult (list Document) :=
  Success (JsMap.values (metadata s)).

(** The record [updateDocument] builds: [{ ...existingDoc, ...updates,
    id: existingDoc.id, metadata: { ...existingDoc.metadata,
    ...updates.metadata, updatedAt: now } }]. *)
Definition updated_document (E : Env) (existingDoc : Document) (updates : PartialDocument)
    : Document :=
  let merged := spread_metadata_opt (doc_metadata existingDoc) (pd_metadata updates) in
  {| doc_id := doc_id existingDoc;
     doc_title := override (pd_title updates) (doc_title existingDoc);
     doc_content := override (pd_content updates) (doc_content existingDoc);
     doc_path := override (pd_path updates) (doc_path existingDoc);
     doc_type := override (pd_type updates) (doc_type existingDoc);
     doc_metadata :=
       {| md_createdAt := md_createdAt merged;
          md_updatedAt := clock E 0;
          md_size := md_size merged;
          md_tags := md_tags merged;
          md_summary := md_summary merged;
          md_wordCount := md_wordCount merged;
          md_charCount := md_charCount merged;
          md_extra := md_extra merged |} |}.

Definition updateDocument (E : Env) (id : jsstring) (updates : PartialDocument)
    (s : t) (fs : JsMap (File P))
    : OperationResult Document * t * JsMap (File P) :=
  match JsMap.get id (metadata s) with
  | None => (Failure (DocumentNotFound id), s, fs)
  | Some existingDoc =>
      let updatedDoc := updated_document E existingDoc updates in
      match writeFile E (docPath s id) (DocFile updatedDoc) fs with
      | None => (Failure Caught, s, fs)
      | Some fs1 =>
          let s1 := with_metadata (JsMap.set id updatedDoc (metadata s)) s in
          match saveMetadata E s1 fs1 with
          | None => (Failure Caught, s1, fs1)
          | Some fs2 => (Success updatedDoc, s1, fs2)
          end
      end
  end.

Definition deleteDocument (E : Env) (id : jsstring) (s : t) (fs : JsMap (File P))
    : OperationResult bool * t * JsMap (File P) :=
  match JsMap.get id (metadata s) with
  | None => (Failure (DocumentNotFound id), s, fs)
  | Some doc =>
      let fs1 := unlink_caught E (docPath s id) fs in
      let s1 := with_metadata (JsMap.delete id (metadata s)) s in
      match saveMetadata E s1 fs1 with
      | None => (Failure Caught, s1, fs1)
      | Some fs2 => (Success true, s1, fs2)
      end
  end.

(** [private validateDocument(doc)], on the parsed value. *)
Definition validateDocument (doc : Json) : bool :=
  match doc with
  | JObject _ =>
      is_json_string (json_field (Js.lit "id") doc)
      && is_json_string (json_field (Js.lit "title") doc)
      && is_json_string (json_field (Js.lit "content") doc)
      && is_json_string (json_field (Js.lit "path") doc)
      && is_json_string (json_field (Js.lit "type") doc)
      && match json_field (Js.lit "metadata") doc with
         | Some meta =>
             is_json_string (json_field (Js.lit "createdAt") meta)
             && is_json_string (json_field (Js.lit "updatedAt") meta)
             && is_json_number (json_field (Js.lit "size") meta)
         | None => false
         end
  | _ => false
  end.

(** [private loadMetadata()]: the valid documents of the manifest are
    added to the map; when the manifest cannot be read the store starts
    empty. *)
Definition loadMetadata (s : t) (fs : JsMap (File P)) : t :=
  match JsMap.get (metadataPath s) fs with
  | Some (ManifestFile documents) =>
      with_metadata
        (fold_left
           (fun m doc =>
              if validateDocument (json_of_document doc)
              then JsMap.set (doc_id doc) doc m else m)
           documents (metadata s))
        s
  | _ => with_metadata [] s
  end.

(** [initialize()]; [mkdir_ok] says whether its three [mkdir]s succeed. *)
Definition initialize (mkdir_ok : bool) (s : t) (fs : JsMap (File P))
    : OperationResult unit * t :=
  if mkdir_ok then (Success tt, loadMetadata s fs) else (Failure Caught, s).

Definition getDocumentsByType (type : DocType) (s : t) : OperationResult (list Document) :=
  Success
    (List.filter (fun doc => bool_decide (type_name (doc_type doc) = type_name type))
                 (JsMap.values (metadata s))).

(** [doc.metadata.tags && tags.some(tag => doc.metadata.tags.includes(tag))] *)
Definition has_any_tag (tags : list jsstring) (doc : Document) : bool :=
  match md_tags (doc_metadata doc) with
  | Some docTags =>
      existsb (fun tag => existsb (fun t => bool_decide (t = tag)) docTags) tags
  | None => false
  end.

Definition getDocumentsByTags (tags : list jsstring) (s : t)
    : OperationResult (list Document) :=
  Success (List.filter (has_any_tag tags) (JsMap.values (metadata s))).




End WithPlatform.
End DocumentStore.

(** ** [class FileWatcher] ([src/lib/FileWatcher.ts]) *)

(** The Content Extractor, [DocumentProcessor]: what it answers for a
    path at the time of the call. *)
Record Processor := {
  isSupported : jsstring -> bool;
  processFile : jsstring -> OperationResult ProcessedFile
}.

Module FileWatcher.
Section WithPlatform.
Context {P : Platform}.

Record World := {
  documentStore : DocumentStore.t;
  searchIndex : SearchIndex.t P;
  disk : JsMap (File P)
}.

(** [private handleFileAdded(filePath)] *)
Definition handleFileAdded (X : Processor) (E : Env) (filePath : jsstring) (w : World)
    : World :=
  if negb (isSupported X filePath) then w
  else
    let '(existingDoc, st1, fs1) :=
      DocumentStore.getDocumentByPath E filePath (documentStore w) (disk w) in
    let w1 := {| documentStore := st1; searchIndex := searchIndex w; disk := fs1 |} in
    match existingDoc with
    | Success _ => w1
    | Failure _ =>
        match processFile X filePath with
        | Failure _ => w1
        | Success pf =>
            let '(addResult, st2, fs2) :=
              DocumentStore.addDocument E filePath (pf_content pf) (pf_type pf)
                (pf_metadata pf) st1 fs1 in
            match addResult with
            | Failure _ =>
                {| documentStore := st2; searchIndex := searchIndex w; disk := fs2 |}
            | Success doc =>
                let '(_, si3, fs3) :=
                  SearchIndex.addDocument E doc (searchIndex w) fs2 in
                {| documentStore := st2; searchIndex := si3; disk := fs3 |}
            end
        end
    end.

(** The environment after [n] readings of the clock. *)
Definition after_readings (n : nat) (E : Env) : Env :=
  {| write_ok := write_ok E;
     unlink_ok := unlink_ok E;
     nanoid := nanoid E;
     clock := fun k => clock E (n + k)%nat |}.

(** [{ ...doc.metadata, ...metadata, updatedAt: new Date().toISOString() }] *)
Definition changed_metadata (E : Env) (doc : Document) (meta : option PartialMetadata)
    : PartialMetadata :=
  let merged := spread_metadata_opt (doc_metadata doc) meta in
  {| pm_createdAt := Some (md_createdAt merged);
     pm_updatedAt := Some (clock E 0);
     pm_size := Some (md_size merged);
     pm_tags := md_tags merged;
     pm_summary := md_summary merged;
     pm_wordCount := md_wordCount merged;
     pm_charCount := md_charCount merged;
     pm_extra := md_extra merged |}.

(** [private handleFileChanged(filePath)] *)
Definition handleFileChanged (X : Processor) (E : Env) (filePath : jsstring) (w : World)
    : World :=
  if negb (isSupported X filePath) then w
  else
    let '(existingDoc, st1, fs1) :=
      DocumentStore.getDocumentByPath E filePath (documentStore w) (disk w) in
    let w1 := {| documentStore := st1; searchIndex := searchIndex w; disk := fs1 |} in
    match existingDoc with
    | Failure _ => handleFileAdded X E filePath w1
    | Success doc =>
        match processFile X filePath with
        | Failure _ => w1
        | Success pf =>
            let '(updateResult, st2, fs2) :=
              DocumentStore.updateDocument (after_readings 1 E) (doc_id doc)
                {| pd_id := None; pd_title := None;
                   pd_content := Some (pf_content pf);
                   pd_path := None; pd_type := None;
                   pd_metadata := Some (changed_metadata E doc (pf_metadata pf)) |}
                st1 fs1 in
            match updateResult with
            | Failure _ =>
                {| documentStore := st2; searchIndex := searchIndex w; disk := fs2 |}
            | Success updatedDoc =>
                let '(_, si3, fs3) :=
                  SearchIndex.updateDocument E updatedDoc (searchIndex w) fs2 in
                {| documentStore := st2; searchIndex := si3; disk := fs3 |}
            end
        end
    end.

(** [private handleFileDeleted(filePath)] *)
Definition handleFileDeleted (E : Env) (filePath : jsstring) (w : World) : World :=
  let '(existingDoc, st1, fs1) :=
    DocumentStore.getDocumentByPath E filePath (documentStore w) (disk w) in
  let w1 := {| documentStore := st1; searchIndex := searchIndex w; disk := fs1 |} in
  match existingDoc with
  | Failure _ => w1
  | Success doc =>
      let '(deleteResult, st2, fs2) :=
        DocumentStore.deleteDocument E (doc_id doc) st1 fs1 in
      match deleteResult with
      | Failure _ =>
          {| documentStore := st2; searchIndex := searchIndex w; disk := fs2 |}
      | Success _ =>
          let '(_, si3, fs3) :=
            SearchIndex.removeDocument E (doc_id doc) (searchIndex w) fs2 in
          {| documentStore := st2; searchIndex := si3; disk := fs3 |}
      end
  end.

(** The events of the watcher ([add], [change], [unlink]), each with what
    the processor and the environment answer while it is handled. *)
Inductive Event :=
| added (filePath : jsstring)
| changed (filePath : jsstring)
| removed (filePath : jsstring).

Definition handle (w : World) (ev : Processor * Env * Event) : World :=
  match ev with
  | (X, E, added filePath) => handleFileAdded X E filePath w
  | (X, E, changed filePath) => handleFileChanged X E filePath w
  | (_, E, removed filePath) => handleFileDeleted E filePath w
  end.

(** The events handled one after the other. *)
Definition handle_all (events : list (Processor * Env * Event)) (w : World) : World :=
  fold_left handle events w.

End WithPlatform.
End FileWatcher.

(** ** The start-up of the server ([src/index.ts])

    [initialize()] loads the store and the index from the disk and then
    rebuilds the index from the documents of the store; a failed rebuild
    is only logged.  It throws ([None]) when the store or the index
    cannot be initialized.  The watcher is started afterwards. *)

Module Server.
Section WithPlatform.
Context {P : Platform}.
Import FileWatcher.

Definition initialize (mkdir_ok : bool) (E : Env) (w : @World P)
    : option (@World P) :=
  let '(storeResult, st) :=
    DocumentStore.initialize mkdir_ok (documentStore w) (disk w) in
  match storeResult with
  | Failure _ => None
  | Success _ =>
      let '(indexResult, si) := SearchIndex.initialize (searchIndex w) (disk w) in
      match indexResult with
      | Failure _ => None
      | Success _ =>
          match DocumentStore.getAllDocuments st with
          | Success docs =>
              let '(_, si', fs') :=
                SearchIndex.rebuildFromDocuments E docs si (disk w) in
              Some {| documentStore := st; searchIndex := si'; disk := fs' |}
          | Failure _ =>
              Some {| documentStore := st; searchIndex := si; disk := disk w |}
          end
      end
  end.

End WithPlatform.
End Server.

(** ** A small platform to run the engine on

    The index is the list of the documents added to it.  A search returns,
    in that order and with score 1, the documents one of whose fields holds
    one of the words of the query (a trailing [*] is a prefix wildcard).
    Lower-casing covers [A-Z]. *)

Module Toy.

Definition lower (s : jsstring) : jsstring :=
  map (fun c => if (65 <=? c) && (c <=? 90) then c + 32 else c) s.

Definition STAR : N := 42.

Definition strip_star (w : jsstring) : jsstring :=
  List.filter (fun c => negb (c =? STAR)) w.

Definition mentions (d : LunrDoc) (w : jsstring) : bool :=
  match SearchIndex.indexOf w (lower (ld_title d ++ Js.SPACE :: ld_content d
                                       ++ Js.SPACE :: ld_tags d)) with
  | Some _ => true
  | None => false
  end.

Definition matches (q : jsstring) (d : LunrDoc) : bool :=
  existsb (mentions d)
          (map strip_star (List.filter Js.nonempty (Js.split_on (N.eqb Js.SPACE) (lower q)))).

Definition platform : Platform :=
  {| Score := nat;
     LunrIndex := list LunrDoc;
     LunrBuilder := list LunrDoc;
     lunr_builder := [];
     lunr_add := fun b d => Some (b ++ [d]);
     lunr_build := fun b => b;
     lunr_search := fun idx q =>
       Some (map (fun d => (ld_id d, 1%nat)) (List.filter (matches q) idx));
     toLowerCase := lower |}.

(** An environment in which every write succeeds. *)
Definition env (id : jsstring) : Env :=
  {| write_ok := fun _ => true;
     unlink_ok := fun _ => true;
     nanoid := id;
     clock := fun _ => Js.lit "2024-01-01T00:00:00.000Z" |}.

(** A record as [addDocument] builds it. *)
Definition document (id path content : jsstring) : Document :=
  DocumentStore.new_document (env id) path content txt None.

Definition data : jsstring := Js.lit "./data".

Definition store : DocumentStore.t := DocumentStore.new data.

Definition searchIndex : SearchIndex.t platform := SearchIndex.new data.

(** A store that holds one document, and its durable slot. *)
Definition doc_a : Document :=
  document (Js.lit "a") (Js.lit "/docs/a.txt") (Js.lit "hello world").

Definition store_a : DocumentStore.t :=
  DocumentStore.with_metadata [(Js.lit "a", doc_a)] store.

Definition disk_a : JsMap (File platform) :=
  [(DocumentStore.docPath store (Js.lit "a"), DocFile doc_a)].

(** The run of [DocumentStore.addDocument] that created [doc_a]. *)
Definition added_a
    : OperationResult Document * DocumentStore.t * JsMap (File platform) :=
  DocumentStore.addDocument (env (Js.lit "a")) (Js.lit "/docs/a.txt")
    (Js.lit "hello world") txt None store [].

(** The index after [doc_a] was added to the empty index. *)
Definition indexed_a
    : OperationResult unit * SearchIndex.t platform * JsMap (File platform) :=
  SearchIndex.addDocument (env (Js.lit "x")) doc_a searchIndex [].

(** A second document at the path of [doc_a], and a world whose store
    holds both, each with its durable slot. *)
Definition doc_b : Document :=
  document (Js.lit "b") (Js.lit "/docs/a.txt") (Js.lit "hello again").

Definition world_dup : @FileWatcher.World platform :=
  {| FileWatcher.documentStore :=
       DocumentStore.with_metadata [(Js.lit "a", doc_a); (Js.lit "b", doc_b)] store;
     FileWatcher.searchIndex := searchIndex;
     FileWatcher.disk :=
       [(DocumentStore.docPath store (Js.lit "a"), DocFile doc_a);
        (DocumentStore.docPath store (Js.lit "b"), DocFile doc_b)] |}.

Definition world_empty : @FileWatcher.World platform :=
  {| FileWatcher.documentStore := store;
     FileWatcher.searchIndex := searchIndex;
     FileWatcher.disk := [] |}.

(** A document longer than the indexing cap. *)
Definition doc_long : Document :=
  document (Js.lit "a") (Js.lit "/docs/a.txt") (repeat 97 (N.to_nat 10001)).

(** A persisted index file whose index knows two documents and whose
    entry list holds one of them, and the state loaded from it. *)
Definition fox_a : IndexEntry :=
  {| ie_id := Js.lit "a"; ie_title := Js.lit "a.txt";
     ie_content := Js.lit "The quick brown fox jumps"; ie_tags := [] |}.

Definition fox_b : IndexEntry :=
  {| ie_id := Js.lit "b"; ie_title := Js.lit "b.txt";
     ie_content := Js.lit "A fox in the henhouse"; ie_tags := [] |}.

Definition disk_fox : JsMap (File platform) :=
  [(SearchIndex.indexPath searchIndex,
    IndexFile (P := platform)
      [SearchIndex.lunr_doc fox_b; SearchIndex.lunr_doc fox_a] [fox_a])].

Definition loaded_fox : SearchIndex.t platform :=
  SearchIndex.loadIndex searchIndex disk_fox.

Definition hits_fox : list (jsstring * nat) :=
  [(Js.lit "b", 1%nat); (Js.lit "a", 1%nat)].

Definition results_fox : list (SearchResult platform) :=
  match (SearchIndex.search loaded_fox (Js.lit "fox") 2).1 with
  | Success results => results
  | Failure _ => []
  end.

(** Two payloads of [updateDocument]: one with an [id] and a [title]
    entry, one with a [path] entry. *)
Definition retitle : PartialDocument :=
  {| pd_id := Some (Js.lit "z"); pd_title := Some (Js.lit "A"); pd_content := None;
     pd_path := None; pd_type := None; pd_metadata := None |}.

Definition move : PartialDocument :=
  {| pd_id := None; pd_title := None; pd_content := None;
     pd_path := Some (Js.lit "/docs/b.txt"); pd_type := None; pd_metadata := None |}.

(** A processor that supports every path and extracts the same text
    from each. *)
Definition processor (content : jsstring) : Processor :=
  {| isSupported := fun _ => true;
     processFile := fun _ =>
       Success {| pf_content := content; pf_type := txt; pf_metadata := None |} |}.

(** The index after [doc_a] and then [doc_b] were added, and what the
    primitive finds in it for [hello]. *)
Definition indexed_ab
    : OperationResult unit * SearchIndex.t platform * JsMap (File platform) :=
  SearchIndex.addDocument (env (Js.lit "x")) doc_b indexed_a.1.2 indexed_a.2.

Definition index_ab : list LunrDoc :=
  [SearchIndex.lunr_doc (SearchIndex.entry_of doc_a);
   SearchIndex.lunr_doc (SearchIndex.entry_of doc_b)].

Definition hits_hello : list (jsstring * nat) :=
  [(Js.lit "a", 1%nat); (Js.lit "b", 1%nat)].

(** The results of a search for [hello] after [doc_a] was removed. *)
Definition results_hello_without_a : list (SearchResult platform) :=
  match (SearchIndex.search
           (SearchIndex.removeDocument (env (Js.lit "x")) (Js.lit "a")
              indexed_ab.1.2 indexed_ab.2).1.2
           (Js.lit "hello") 10).1 with
  | Success results => results
  | Failure _ => []
  end.

(** A platform whose search always throws, and a state with an index
    object on it. *)
Definition failing : Platform :=
  {| Score := nat;
     LunrIndex := unit;
     LunrBuilder := unit;
     lunr_builder := tt;
     lunr_add := fun _ _ => Some tt;
     lunr_build := fun _ => tt;
     lunr_search := fun _ _ => None;
     toLowerCase := lower |}.

Definition failing_index : SearchIndex.t failing :=
  SearchIndex.with_index (P := failing) (Some tt) (SearchIndex.new data).

(** A world whose store holds [doc_a] with its durable slot. *)
Definition world_a : @FileWatcher.World platform :=
  {| FileWatcher.documentStore := store_a;
     FileWatcher.searchIndex := searchIndex;
     FileWatcher.disk := disk_a |}.

Definition path_a : jsstring := Js.lit "/docs/a.txt".

(** The record of [doc_a] is in the store, its durable slot is gone. *)
Definition world_stale : @FileWatcher.World platform :=
  {| FileWatcher.documentStore := store_a;
     FileWatcher.searchIndex := searchIndex;
     FileWatcher.disk := [] |}.

(** A disk with the manifest of [store_a] and a stale index file. *)
Definition disk_restart : JsMap (File platform) :=
  [(DocumentStore.metadataPath store, ManifestFile [doc_a]);
   (SearchIndex.indexPath searchIndex,
    IndexFile (P := platform)
      [SearchIndex.lunr_doc (SearchIndex.entry_of doc_b)] [SearchIndex.entry_of doc_b])].

Definition world_restart : @FileWatcher.World platform :=
  {| FileWatcher.documentStore := store;
     FileWatcher.searchIndex := searchIndex;
     FileWatcher.disk := disk_restart |}.

(** What [processor] extracts. *)
Definition extracted (content : jsstring) : ProcessedFile :=
  {| pf_content := content; pf_type := txt; pf_metadata := None |}.

End Toy.

(** ** Notions of the specification *)

Module Spec.

(** A blank string: empty or made of whitespace only. *)
Definition blank (s : jsstring) : bool := forallb Js.is_space s.

(** The non-empty pieces of [s] between separator characters. *)
Definition tokens (sep : N -> bool) (s : jsstring) : list jsstring :=
  List.filter Js.nonempty (Js.split_on sep s).

(** The first piece of a split followed by the join of the other
    non-empty pieces. *)
Definition join_tail (pieces : list jsstring) : jsstring :=
  match pieces with
  | [] => []
  | w :: ws =>
      match List.filter Js.nonempty ws with
      | [] => w
      | rest => w ++ Js.SPACE :: Js.join_sp rest
      end
  end.

(** The number of whitespace-delimited non-empty tokens. *)
Definition word_count (s : jsstring) : nat := length (tokens Js.is_space s).

(** The word, hyphen and underscore classes. *)
Definition is_term_char (c : N) : bool :=
  Js.is_word c || (c =? Js.HYPHEN) || (c =? Js.UNDERSCORE).

(** The terms of a query: what is left between the characters that are
    stripped and the whitespace. *)
Definition query_terms (q : jsstring) : list jsstring :=
  tokens (fun c => negb (is_term_char c)) q.

(** Query normalisation as the specification words it: a single term
    longer than two characters becomes its prefix-wildcard form followed
    by the term itself; otherwise the terms are joined by single spaces. *)
Definition normalized_query (q : jsstring) : jsstring :=
  match query_terms q with
  | [w] => if (2 <? length w)%nat then w ++ Js.lit "* " ++ w else Js.join_sp [w]
  | ws => Js.join_sp ws
  end.

(** Every key of the entry map is the [id] of its entry. *)
Definition index_keyed {P} (s : SearchIndex.t P) : Prop :=
  Forall (fun kv => ie_id kv.2 = kv.1) (SearchIndex.documents s).

(** The entry stored for [doc] holds the content of [doc] cut at the
    cap: unchanged up to 10,000 characters, and otherwise its first
    10,000 characters followed by three dots. *)
Definition entry_capped {P} (doc : Document) (s : SearchIndex.t P) : Prop :=
  exists e,
    JsMap.get (doc_id doc) (SearchIndex.documents s) = Some e
    /\ ie_content e
       = (if N.of_nat (length (doc_content doc)) <=? 10000 then doc_content doc
          else take (N.to_nat 10000) (doc_content doc) ++ Js.lit "...")
    /\ N.of_nat (length (ie_content e))
       = (if N.of_nat (length (doc_content doc)) <=? 10000
          then N.of_nat (length (doc_content doc)) else 10003)
    /\ N.of_nat (length (ie_content e)) <= 10003.

(** Every key of the document map is the [id] of its record. *)
Definition store_keyed (s : DocumentStore.t) : Prop :=
  Forall (fun kv => doc_id kv.2 = kv.1) (DocumentStore.metadata s).

(** The number of records whose [path] is [p]. *)
Definition count_path (p : jsstring) (m : JsMap Document) : nat :=
  length (List.filter (fun doc => bool_decide (doc_path doc = p)) (JsMap.values m)).

(** A live document for [p]: the lookup by path finds a record whose
    durable slot exists. *)
Definition live {P} (p : jsstring) (s : DocumentStore.t)
    (fs : JsMap (File P)) : bool :=
  match DocumentStore.find_by_path p (DocumentStore.metadata s) with
  | Some doc => access (DocumentStore.docPath s (doc_id doc)) fs
  | None => false
  end.

#[global] Instance DocType_eq_dec : EqDecision DocType.
Proof. solve_decision. Defined.

(** No key occurs twice, as in every [Map]. *)
Definition unique_keys {V} (m : JsMap V) : Prop := NoDup (map fst m).

(** There is an index object exactly when there are entries. *)
Definition index_tracks {P} (s : SearchIndex.t P) : Prop :=
  SearchIndex.index s = None <-> SearchIndex.documents s = [].

(** The last document of a list that has the id [id]. *)
Definition last_with_id (id : jsstring) (docs : list Document) : option Document :=
  List.find (fun d => bool_decide (doc_id d = id)) (rev docs).



(** At most one record for every path. *)
Definition paths_unique (s : DocumentStore.t) : Prop :=
  forall p, (count_path p (DocumentStore.metadata s) <= 1)%nat.

End Spec.

(** ** Facts about the string operations *)

Example basename_ex : Js.basename (Js.lit "/docs/report.txt") = Js.lit "report.txt".
Proof. vm_compute. reflexivity. Qed.

Example basename_trailing_slash : Js.basename (Js.lit "/docs/notes/") = Js.lit "notes".
Proof. vm_compute. reflexivity. Qed.

Example split_ws_ex :
  Js.split_ws (Js.lit " a  b ") = [[]; Js.lit "a"; Js.lit "b"; []].
Proof. vm_compute. reflexivity. Qed.

(** [h], [e-acute], the euro sign and one surrogate pair. *)
Example byteLength_ex : Js.byteLength [104; 233; 8364; 55357; 56832] = 10.
Proof. vm_compute. reflexivity. Qed.

Example cleanQuery_single : SearchIndex.cleanQuery (Js.lit " fox! ") = Js.lit "fox* fox".
Proof. vm_compute. reflexivity. Qed.

Example cleanQuery_short : SearchIndex.cleanQuery (Js.lit "ab") = Js.lit "ab".
Proof. vm_compute. reflexivity. Qed.

Example cleanQuery_many :
  SearchIndex.cleanQuery (Js.lit "quick,  brown-fox (jumps)") = Js.lit "quick brown-fox jumps".
Proof. vm_compute. reflexivity. Qed.

Section StringFacts.
Import Js.

Lemma is_space_SPACE : is_space SPACE = true.
Proof. reflexivity. Qed.

Lemma term_char_not_space c : Spec.is_term_char c = true -> is_space c = false.
Proof.
  unfold Spec.is_term_char, is_word, is_space, HYPHEN, UNDERSCORE.
  intros H. apply not_true_is_false. intros H'.
  repeat (rewrite ?orb_true_iff, ?andb_true_iff, ?N.leb_le, ?N.eqb_eq in H).
  repeat (rewrite ?orb_true_iff, ?andb_true_iff, ?N.leb_le, ?N.eqb_eq in H').
  lia.
Qed.

Lemma split_on_nonnil sep s : split_on sep s <> [].
Proof. destruct s as [|c s]; simpl; [done|]. destruct (sep c); [done|].
  destruct (split_on sep s); done. Qed.

Lemma split_runs_nonnil b s : split_runs_from b s <> [].
Proof.
  revert b. induction s as [|c s IH]; intros b; simpl; [done|].
  destruct (is_space c); [destruct b; [apply IH | done]|].
  destruct (split_runs_from false s); done.
Qed.

(** Splitting after a character-wise rewriting that maps separators to
    separators and leaves the other characters alone. *)
Lemma split_on_map (sep1 sep2 : N -> bool) (f : N -> N) s :
  (forall c, sep2 (f c) = sep1 c) ->
  (forall c, sep1 c = false -> f c = c) ->
  split_on sep2 (map f s) = split_on sep1 s.
Proof.
  intros Hsep Hid. induction s as [|c s IH]; simpl; [done|].
  rewrite Hsep. destruct (sep1 c) eqn:Hc; rewrite IH; [done|].
  rewrite (Hid c Hc). done.
Qed.

(** The pieces of a split hold no separator. *)
Lemma split_on_pieces sep s :
  Forall (Forall (fun c => sep c = false)) (split_on sep s).
Proof.
  induction s as [|c s IH]; simpl; [by repeat constructor|].
  destruct (sep c) eqn:Hc; [by constructor|].
  destruct (split_on sep s) as [|w ws]; [by repeat constructor|].
  inversion IH; subst. constructor; [by constructor | done].
Qed.

Lemma tokens_sep_cons sep c s :
  sep c = true -> Spec.tokens sep (c :: s) = Spec.tokens sep s.
Proof. intros H. unfold Spec.tokens. simpl. by rewrite H. Qed.

Lemma tokens_trimStart sep s :
  (forall c, is_space c = true -> sep c = true) ->
  Spec.tokens sep (trimStart s) = Spec.tokens sep s.
Proof.
  intros Hsp. induction s as [|c s IH]; simpl; [done|].
  destruct (is_space c) eqn:Hc; [|done].
  rewrite IH. symmetry. apply tokens_sep_cons. auto.
Qed.

Lemma split_on_snoc_sep sep s c :
  sep c = true -> split_on sep (s ++ [c]) = split_on sep s ++ [[]].
Proof.
  intros Hc. induction s as [|a s IH]; simpl; [by rewrite Hc|].
  destruct (sep a); rewrite IH; [done|].
  pose proof (split_on_nonnil sep s). destruct (split_on sep s); done.
Qed.

Lemma tokens_snoc_sep sep s c :
  sep c = true -> Spec.tokens sep (s ++ [c]) = Spec.tokens sep s.
Proof.
  intros Hc. unfold Spec.tokens. rewrite split_on_snoc_sep by done.
  rewrite List.filter_app. simpl. by rewrite app_nil_r.
Qed.

Lemma trimStart_snoc y c :
  trimStart (y ++ [c]) =
    match trimStart y with
    | [] => if is_space c then [] else [c]
    | t => t ++ [c]
    end.
Proof.
  induction y as [|a y IH]; simpl; [done|].
  destruct (is_space a); [apply IH | done].
Qed.

(** [trimEnd], read from the front. *)
Lemma trimEnd_cons c x :
  trimEnd (c :: x) =
    if is_space c
    then match trimEnd x with [] => [] | y => c :: y end
    else c :: trimEnd x.
Proof.
  unfold trimEnd. simpl. rewrite trimStart_snoc.
  destruct (trimStart (rev x)) as [|a t] eqn:Ht; simpl.
  - destruct (is_space c); done.
  - rewrite rev_app_distr. simpl. destruct (is_space c); [|done].
    destruct (rev t ++ [a]) eqn:Hr; [|done].
    by destruct (rev t).
Qed.

Lemma trimEnd_snoc s c :
  trimEnd (s ++ [c]) = if is_space c then trimEnd s else s ++ [c].
Proof.
  unfold trimEnd. rewrite rev_app_distr. simpl.
  destruct (is_space c); [done|]. simpl. by rewrite rev_involutive.
Qed.

Lemma tokens_trimEnd sep s :
  (forall c, is_space c = true -> sep c = true) ->
  Spec.tokens sep (trimEnd s) = Spec.tokens sep s.
Proof.
  intros Hsp. induction s as [|c s IH] using rev_ind; [done|].
  rewrite trimEnd_snoc. destruct (is_space c) eqn:Hc; [|done].
  rewrite IH. symmetry. apply tokens_snoc_sep. auto.
Qed.

Lemma tokens_trim sep s :
  (forall c, is_space c = true -> sep c = true) ->
  Spec.tokens sep (trim s) = Spec.tokens sep s.
Proof.
  intros Hsp. unfold trim. by rewrite tokens_trimEnd, tokens_trimStart.
Qed.

(** [split(/\s+/)] and a split at every whitespace character agree on
    their first piece and on their other non-empty pieces. *)
Lemma split_runs_split_on s :
  (forall b, List.filter nonempty (split_runs_from b s) = Spec.tokens is_space s)
  /\ hd [] (split_runs_from false s) = hd [] (split_on is_space s)
  /\ List.filter nonempty (tl (split_runs_from false s))
     = List.filter nonempty (tl (split_on is_space s)).
Proof.
  unfold Spec.tokens.
  induction s as [|c s (IH1 & IH2 & IH3)]; simpl; [done|].
  destruct (is_space c) eqn:Hc; simpl.
  - split; [|split]; [intros []; simpl|..]; try apply IH1; done.
  - pose proof (split_runs_nonnil false s) as Hn1.
    pose proof (split_on_nonnil is_space s) as Hn2.
    specialize (IH1 false).
    destruct (split_runs_from false s) as [|w ws]; [done|].
    destruct (split_on is_space s) as [|w' ws']; [done|].
    simpl in *. subst w'. rewrite IH3. done.
Qed.

Lemma filter_split_ws s :
  List.filter nonempty (split_ws s) = Spec.tokens is_space s.
Proof. apply split_runs_split_on. Qed.

Lemma trimStart_collapse b s :
  trimStart (collapse_from b s) = collapse_from true s.
Proof.
  revert b. induction s as [|c s IH]; intros b; simpl; [done|].
  destruct (is_space c) eqn:Hc.
  - destruct b; simpl; apply IH.
  - simpl. by rewrite Hc.
Qed.

Lemma tokens_nonempty sep s : Forall (fun w => w <> []) (Spec.tokens sep s).
Proof.
  unfold Spec.tokens. apply Forall_forall. intros w Hw.
  apply list_elem_of_In, List.filter_In in Hw. destruct Hw as [_ Hw].
  by destruct w.
Qed.

Lemma join_sp_nil_inv ws :
  Forall (fun w => w <> []) ws -> join_sp ws = [] -> ws = [].
Proof.
  destruct 1 as [|w ws Hw _]; [done|]. simpl.
  destruct ws; [done|]. by destruct w.
Qed.

Lemma trim_collapse_join s :
  trimEnd (collapse_from true s) = join_sp (Spec.tokens is_space s)
  /\ trimEnd (collapse_from false s) = Spec.join_tail (split_on is_space s).
Proof.
  induction s as [|c s [IH1 IH2]]; [done|].
  unfold Spec.tokens in *. simpl. destruct (is_space c) eqn:Hc.
  - split; [exact IH1|]. simpl. rewrite trimEnd_cons, is_space_SPACE, IH1.
    pose proof (tokens_nonempty is_space s) as Hne. unfold Spec.tokens in Hne.
    destruct (List.filter nonempty (split_on is_space s)) as [|w ws] eqn:Hf; [done|].
    change (match join_sp (w :: ws) with [] => [] | n :: l => SPACE :: n :: l end
            = SPACE :: join_sp (w :: ws)).
    destruct (join_sp (w :: ws)) eqn:Hj; [|done].
    by apply join_sp_nil_inv in Hj.
  - rewrite !trimEnd_cons, Hc, IH2.
    pose proof (split_on_nonnil is_space s) as Hn.
    destruct (split_on is_space s) as [|w ws]; [done|]. simpl.
    destruct (List.filter nonempty ws); done.
Qed.

Lemma trim_collapse s :
  trim (collapse_spaces s) = join_sp (Spec.tokens is_space s).
Proof.
  unfold trim, collapse_spaces. rewrite trimStart_collapse.
  apply trim_collapse_join.
Qed.

Lemma split_on_app_sep sep w c rest :
  Forall (fun a => sep a = false) w -> sep c = true ->
  split_on sep (w ++ c :: rest) = w :: split_on sep rest.
Proof.
  intros Hw Hc. induction Hw as [|a w Ha _ IH]; simpl; [by rewrite Hc|].
  by rewrite Ha, IH.
Qed.

Lemma split_on_no_sep sep w :
  Forall (fun a => sep a = false) w -> split_on sep w = [w].
Proof.
  induction 1 as [|a w Ha _ IH]; simpl; [done|]. by rewrite Ha, IH.
Qed.

(** Splitting a join of separator-free non-empty words gives the words
    back. *)
Lemma split_join_sp sep ws :
  sep SPACE = true ->
  Forall (fun w => w <> [] /\ Forall (fun a => sep a = false) w) ws ->
  List.filter nonempty (split_on sep (join_sp ws)) = ws.
Proof.
  intros Hsp. induction 1 as [|w ws [Hne Hw] Hws IH]; [done|].
  simpl. destruct ws as [|w' ws].
  - rewrite split_on_no_sep by done. simpl. by destruct w.
  - rewrite split_on_app_sep by done. simpl in *. rewrite IH. by destruct w.
Qed.

Lemma replace_special_split x :
  split_on is_space (replace_special x)
  = split_on (fun c => negb (Spec.is_term_char c)) x.
Proof.
  unfold replace_special. apply split_on_map.
  - intros c. destruct (Spec.is_term_char c) eqn:Ht; simpl.
    + pose proof (term_char_not_space c Ht) as Hs. revert Ht.
      unfold Spec.is_term_char. rewrite Hs.
      destruct (is_word c), (c =? HYPHEN), (c =? UNDERSCORE); simpl; congruence.
    + revert Ht. unfold Spec.is_term_char.
      destruct (is_word c), (c =? HYPHEN), (c =? UNDERSCORE); simpl; try congruence.
      intros _. rewrite orb_false_r. by destruct (is_space c) eqn:Hs.
  - intros c Ht. apply negb_false_iff in Ht. revert Ht.
    unfold Spec.is_term_char.
    destruct (is_word c), (c =? HYPHEN), (c =? UNDERSCORE), (is_space c);
      simpl; congruence.
Qed.

Lemma space_not_term c : is_space c = true -> negb (Spec.is_term_char c) = true.
Proof.
  intros Hs. destruct (Spec.is_term_char c) eqn:Ht; [|done].
  apply term_char_not_space in Ht. congruence.
Qed.

(** The text [cleanQuery] calls [cleaned]. *)
Lemma cleaned_join q :
  trim (collapse_spaces (replace_special (trim q))) = join_sp (Spec.query_terms q).
Proof.
  rewrite trim_collapse. unfold Spec.query_terms, Spec.tokens at 1.
  rewrite replace_special_split.
  f_equal. apply (tokens_trim (fun c => negb (Spec.is_term_char c))), space_not_term.
Qed.

Lemma query_terms_clean q :
  Forall (fun w => w <> [] /\ Forall (fun a => (SPACE =? a) = false) w)
         (Spec.query_terms q).
Proof.
  unfold Spec.query_terms. apply Forall_forall. intros w Hw. split.
  - pose proof (tokens_nonempty (fun c => negb (Spec.is_term_char c)) q) as H.
    rewrite Forall_forall in H. by apply H.
  - unfold Spec.tokens in Hw. apply list_elem_of_In, List.filter_In in Hw.
    destruct Hw as [Hw _]. apply list_elem_of_In in Hw.
    pose proof (split_on_pieces (fun c => negb (Spec.is_term_char c)) q) as H.
    rewrite Forall_forall in H. specialize (H w Hw).
    eapply Forall_impl; [exact H|]. simpl. intros a Ha.
    apply negb_false_iff, term_char_not_space in Ha.
    destruct (SPACE =? a) eqn:Heq; [|done].
    apply N.eqb_eq in Heq. subst a. by rewrite is_space_SPACE in Ha.
Qed.

Lemma trimStart_nil s : trimStart s = [] <-> Spec.blank s = true.
Proof.
  unfold Spec.blank. induction s as [|c s IH]; simpl; [done|].
  destruct (is_space c); simpl; [done|]. split; done.
Qed.

Lemma trimStart_head s c t : trimStart s = c :: t -> is_space c = false.
Proof.
  induction s as [|a s IH]; simpl; [done|].
  destruct (is_space a) eqn:Ha; [done|]. by intros [= <- _].
Qed.

(** [!query.trim()] holds exactly for the blank strings. *)
Lemma trim_nil s : trim s = [] <-> Spec.blank s = true.
Proof.
  rewrite <- trimStart_nil. unfold trim. split.
  - intros H. destruct (trimStart s) as [|c t] eqn:Ht; [done|].
    apply trimStart_head in Ht. rewrite trimEnd_cons, Ht in H. done.
  - by intros ->.
Qed.

End StringFacts.

(** ** Facts about [JsMap] *)

Section MapFacts.
Context {V : Type}.
Implicit Types (m : JsMap V) (k : jsstring) (v : V).

Lemma get_set_eq k v m : JsMap.get k (JsMap.set k v m) = Some v.
Proof.
  induction m as [|[k' v'] m IH]; simpl.
  - by rewrite decide_True.
  - destruct (decide (k = k')) as [->|Hne]; simpl.
    + by rewrite decide_True.
    + by rewrite decide_False.
Qed.

Lemma get_elem k v m : JsMap.get k m = Some v -> (k, v) ∈ m.
Proof.
  induction m as [|[k' v'] m IH]; simpl; [done|].
  destruct (decide (k = k')) as [->|Hne].
  - intros [= ->]. left.
  - intros H. right. auto.
Qed.

(** A property of the entries, kept by [set] and [delete]. *)
Lemma Forall_set (Q : jsstring * V -> Prop) k v m :
  Q (k, v) -> Forall Q m -> Forall Q (JsMap.set k v m).
Proof.
  intros Hkv. induction 1 as [|[k' v'] m Hx Hm IH]; simpl.
  - by repeat constructor.
  - destruct (decide (k = k')); by constructor.
Qed.

Lemma Forall_delete (Q : jsstring * V -> Prop) k m :
  Forall Q m -> Forall Q (JsMap.delete k m).
Proof.
  intros H. apply Forall_forall. intros x Hx.
  apply list_elem_of_In, List.filter_In in Hx. destruct Hx as [Hx _].
  rewrite Forall_forall in H. by apply H, list_elem_of_In.
Qed.

Lemma Forall_fold_set {A} (Q : jsstring * V -> Prop) (key : A -> jsstring)
    (val : A -> V) (l : list A) m :
  (forall a, Q (key a, val a)) -> Forall Q m ->
  Forall Q (fold_left (fun m a => JsMap.set (key a) (val a) m) l m).
Proof.
  intros HQ. revert m. induction l as [|a l IH]; intros m Hm; simpl; [done|].
  apply IH. by apply Forall_set.
Qed.

Lemma get_set_ne k k' v m :
  k <> k' -> JsMap.get k' (JsMap.set k v m) = JsMap.get k' m.
Proof.
  intros Hne. induction m as [|[k0 v0] m IH]; simpl.
  - by rewrite decide_False.
  - destruct (decide (k = k0)) as [->|Hk]; simpl.
    + by rewrite !decide_False.
    + destruct (decide (k' = k0)); [done | apply IH].
Qed.

Lemma has_set k q v m :
  JsMap.has q m = true -> JsMap.has q (JsMap.set k v m) = true.
Proof.
  unfold JsMap.has. destruct (decide (k = q)) as [->|Hne].
  - by rewrite get_set_eq.
  - by rewrite get_set_ne.
Qed.

End MapFacts.

(** ** The document store *)

Section StoreFacts.
Context {P : Platform}.
Implicit Types (s : DocumentStore.t) (fs : JsMap (File P)).
Import DocumentStore.

Lemma access_writeFile E p f q fs fs' :
  writeFile E p f fs = Some fs' -> access q fs = true -> access q fs' = true.
Proof.
  unfold writeFile, access. destruct (write_ok E p); [|done].
  intros [= <-]. apply has_set.
Qed.

Lemma access_written E p f fs fs' :
  writeFile E p f fs = Some fs' -> access p fs' = true.
Proof.
  unfold writeFile, access, JsMap.has. destruct (write_ok E p); [|done].
  intros [= <-]. by rewrite get_set_eq.
Qed.

(** What [updateDocument] does to [id] and [path]. *)
Lemma updated_document_id E existing updates :
  doc_id (updated_document E existing updates) = doc_id existing.
Proof. done. Qed.

Lemma updated_document_path E existing updates :
  doc_path (updated_document E existing updates)
  = override (pd_path updates) (doc_path existing).
Proof. done. Qed.

(** C1, as amended.  [updateDocument] on a stored document leaves the
    [id] field unchanged in the stored and in the returned record,
    whatever the payload holds; it leaves [path] unchanged when the
    payload has no [path] entry, and a [path] entry of the payload
    replaces the path of the returned record. *)
Theorem updateDocument_id_path E id updates s fs existing :
  JsMap.get id (metadata s) = Some existing ->
  let '(r, s', _) := updateDocument E id updates s fs in
  exists stored,
    JsMap.get id (metadata s') = Some stored
    /\ doc_id stored = doc_id existing
    /\ (pd_path updates = None -> doc_path stored = doc_path existing)
    /\ forall returned, r = Success returned ->
         returned = stored
         /\ doc_path returned = override (pd_path updates) (doc_path existing).
Proof.
  intros Hget. unfold updateDocument. rewrite Hget.
  destruct (writeFile E (docPath s id) _ fs) as [fs1|].
  - set (s1 := with_metadata _ s).
    assert (Hs1 : JsMap.get id (metadata s1)
                  = Some (updated_document E existing updates))
      by apply get_set_eq.
    destruct (saveMetadata E s1 fs1);
      (eexists; split; [exact Hs1|]; split; [done|]; split;
       [by intros Hp; rewrite updated_document_path, Hp|]).
    + by intros returned [= <-].
    + done.
  - exists existing. repeat split; done.
Qed.

Lemma docPath_with_metadata m s id :
  docPath (with_metadata m s) id = docPath s id.
Proof. done. Qed.

(** C2, as amended.  After a successful [addDocument] whose metadata
    overrides supply none of [size], [wordCount], [createdAt] and
    [updatedAt], an immediately following [getDocument] on the new id
    returns a record whose [size] is the UTF-8 byte length of the
    content and whose [wordCount] is the number of whitespace-delimited
    non-empty tokens; its [createdAt] equals its [updatedAt] when the
    two readings of the clock taken by [addDocument] agree. *)
Theorem addDocument_getDocument E E' filePath content type meta s fs doc s1 fs1 :
  addDocument E filePath content type meta s fs = (Success doc, s1, fs1) ->
  (forall m, meta = Some m ->
     pm_size m = None /\ pm_wordCount m = None
     /\ pm_createdAt m = None /\ pm_updatedAt m = None) ->
  exists got,
    getDocument E' (doc_id doc) s1 fs1 = (Success got, s1, fs1)
    /\ md_size (doc_metadata got) = Z.of_N (Js.byteLength content)
    /\ md_wordCount (doc_metadata got) = Some (Z.of_nat (Spec.word_count content))
    /\ (clock E 0 = clock E 1 ->
        md_createdAt (doc_metadata got) = md_updatedAt (doc_metadata got)).
Proof.
  intros Hadd Hmeta. unfold addDocument in Hadd.
  destruct (writeFile E _ _ fs) as [fs'|] eqn:Hw1; [|done].
  destruct (saveMetadata E _ fs') as [fs2|] eqn:Hw2; [|done].
  injection Hadd as <- <- <-.
  exists (new_document E filePath content type meta). split.
  - unfold getDocument. simpl metadata. rewrite get_set_eq.
    rewrite docPath_with_metadata.
    unfold saveMetadata in Hw2.
    rewrite (access_writeFile _ _ _ _ _ _ Hw2 (access_written _ _ _ _ _ Hw1)).
    done.
  - unfold Spec.word_count. rewrite <- filter_split_ws.
    destruct meta as [m|]; simpl; [|done].
    destruct (Hmeta m eq_refl) as (-> & -> & -> & ->). done.
Qed.

(** Every operation keeps the document map keyed by the ids of its
    records. *)
Lemma store_keyed_new basePath : Spec.store_keyed (new basePath).
Proof. constructor. Qed.

Lemma store_keyed_evict E id s fs :
  Spec.store_keyed s -> Spec.store_keyed (evict E id s fs).1.2.
Proof.
  intros Hk. unfold evict. destruct (saveMetadata E _ fs); by apply Forall_delete.
Qed.

Lemma store_keyed_getDocument E id s fs :
  Spec.store_keyed s -> Spec.store_keyed (getDocument E id s fs).1.2.
Proof.
  intros Hk. unfold getDocument. destruct (JsMap.get id (metadata s)); [|done].
  destruct (access _ fs); [done | by apply store_keyed_evict].
Qed.

Lemma store_keyed_addDocument E p content type meta s fs :
  Spec.store_keyed s -> Spec.store_keyed (addDocument E p content type meta s fs).1.2.
Proof.
  intros Hk. unfold addDocument. destruct (writeFile E _ _ fs) as [fs1|]; [|done].
  destruct (saveMetadata E _ fs1); by apply Forall_set.
Qed.

Lemma store_keyed_updateDocument E id updates s fs :
  Spec.store_keyed s -> Spec.store_keyed (updateDocument E id updates s fs).1.2.
Proof.
  intros Hk. unfold updateDocument.
  destruct (JsMap.get id (metadata s)) as [existing|] eqn:Hg; [|done].
  destruct (writeFile E _ _ fs) as [fs1|]; [|done].
  assert (doc_id existing = id) as Hid.
  { apply get_elem in Hg. unfold Spec.store_keyed in Hk.
    rewrite Forall_forall in Hk. exact (Hk _ Hg). }
  destruct (saveMetadata E _ fs1); by apply Forall_set.
Qed.

Lemma store_keyed_deleteDocument E id s fs :
  Spec.store_keyed s -> Spec.store_keyed (deleteDocument E id s fs).1.2.
Proof.
  intros Hk. unfold deleteDocument. destruct (JsMap.get id (metadata s)); [|done].
  destruct (saveMetadata E _ _); by apply Forall_delete.
Qed.

(** What [addDocument] takes for the title: the first tag when there is
    one and it is not the empty string, the filename otherwise. *)
Lemma initial_title_tagged m tag rest filename :
  pm_tags m = Some (tag :: rest) -> tag <> [] ->
  initial_title (Some m) filename = tag.
Proof. intros Ht Hne. unfold initial_title. rewrite Ht. by destruct tag. Qed.

Lemma initial_title_untagged m filename :
  pm_tags m = None \/ pm_tags m = Some [] ->
  initial_title (Some m) filename = filename.
Proof. unfold initial_title. by intros [-> | ->]. Qed.

End StoreFacts.

(** ** The search index *)

Section IndexFacts.
Context {P : Platform}.
Implicit Types (s : SearchIndex.t P) (fs : JsMap (File P)).
Import SearchIndex.

Lemma get_keyed {V} (f : V -> jsstring) (m : JsMap V) k v :
  Forall (fun kv => f kv.2 = kv.1) m -> JsMap.get k m = Some v -> f v = k.
Proof.
  intros Hm Hg. apply get_elem in Hg. rewrite Forall_forall in Hm.
  exact (Hm _ Hg).
Qed.

Lemma rebuildIndex_documents E s fs :
  documents (rebuildIndex E s fs).1.2 = documents s.
Proof.
  unfold rebuildIndex, saveIndex.
  destruct (JsMap.values (documents s)); simpl.
  - done.
  - destruct (writeFile _ _ _ _); done.
Qed.

Lemma addDocument_documents E doc s fs :
  documents (addDocument E doc s fs).1.2
  = JsMap.set (doc_id doc) (entry_of doc) (documents s).
Proof.
  unfold addDocument.
  pose proof (rebuildIndex_documents E
    (with_documents (JsMap.set (doc_id doc) (entry_of doc) (documents s)) s) fs) as H.
  destruct (rebuildIndex E _ fs) as [[[] s2] fs2]; exact H.
Qed.

Lemma removeDocument_documents E id s fs :
  documents (removeDocument E id s fs).1.2
  = if JsMap.has id (documents s) then JsMap.delete id (documents s)
    else documents s.
Proof.
  unfold removeDocument. destruct (JsMap.has id (documents s)); simpl; [|done].
  pose proof (rebuildIndex_documents E
    (with_documents (JsMap.delete id (documents s)) s) fs) as H.
  destruct (rebuildIndex E _ fs) as [[[] s2] fs2]; exact H.
Qed.

Lemma rebuildFromDocuments_documents E docs s fs :
  documents (rebuildFromDocuments E docs s fs).1.2
  = fold_left (fun m doc => JsMap.set (doc_id doc) (entry_of doc) m) docs [].
Proof.
  unfold rebuildFromDocuments.
  pose proof (rebuildIndex_documents E
    (with_documents
       (fold_left (fun m doc => JsMap.set (doc_id doc) (entry_of doc) m) docs []) s)
    fs) as H.
  destruct (rebuildIndex E _ fs) as [[[] s2] fs2]; exact H.
Qed.

(** The entry map stays keyed by the ids of its entries. *)
Lemma index_keyed_new basePath : Spec.index_keyed (P := P) (new basePath).
Proof. constructor. Qed.

Lemma index_keyed_loadIndex s fs : Spec.index_keyed (loadIndex s fs).
Proof.
  unfold Spec.index_keyed, loadIndex.
  destruct (JsMap.get (indexPath s) fs) as [[]|]; simpl; try constructor.
  unfold map_of_entries.
  apply (Forall_fold_set (fun kv => ie_id kv.2 = kv.1) ie_id (fun d => d)); by auto.
Qed.

Lemma index_keyed_addDocument E doc s fs :
  Spec.index_keyed s -> Spec.index_keyed (addDocument E doc s fs).1.2.
Proof.
  unfold Spec.index_keyed. rewrite addDocument_documents. by apply Forall_set.
Qed.

Lemma index_keyed_removeDocument E id s fs :
  Spec.index_keyed s -> Spec.index_keyed (removeDocument E id s fs).1.2.
Proof.
  unfold Spec.index_keyed. rewrite removeDocument_documents.
  destruct (JsMap.has id (documents s)); [apply Forall_delete | done].
Qed.

Lemma index_keyed_rebuildFromDocuments E docs s fs :
  Spec.index_keyed (rebuildFromDocuments E docs s fs).1.2.
Proof.
  unfold Spec.index_keyed. rewrite rebuildFromDocuments_documents.
  apply (Forall_fold_set (fun kv => ie_id kv.2 = kv.1) doc_id entry_of); by auto.
Qed.

Lemma index_keyed_clearIndex E s fs :
  Spec.index_keyed (clearIndex E s fs).1.2.
Proof. constructor. Qed.

Lemma truncateContent_length content maxLength :
  N.of_nat (length (truncateContent content maxLength))
  = if N.of_nat (length content) <=? maxLength then N.of_nat (length content)
    else maxLength + 3.
Proof.
  unfold truncateContent.
  destruct (N.leb_spec (N.of_nat (length content)) maxLength) as [Hle|Hgt]; [done|].
  rewrite length_app, length_take. simpl. lia.
Qed.

Lemma entry_capped_set doc s :
  JsMap.get (doc_id doc) (documents s) = Some (entry_of doc) ->
  Spec.entry_capped doc s.
Proof.
  intros Hget. exists (entry_of doc). split; [done|]. split; [done|].
  simpl. rewrite truncateContent_length.
  destruct (N.leb_spec (N.of_nat (length (doc_content doc))) 10000); split; lia.
Qed.

(** C4, as amended.  The entry that [SearchIndex.addDocument] or
    [updateDocument] stores for a document holds its content unchanged
    when that has at most 10,000 characters, and otherwise the first
    10,000 characters followed by ["..."]: 10,003 characters, which is
    the greatest length an entry's content has. *)
Theorem index_entry_content_cap E doc s fs :
  Spec.entry_capped doc (addDocument E doc s fs).1.2
  /\ Spec.entry_capped doc (updateDocument E doc s fs).1.2.
Proof.
  assert (H : Spec.entry_capped doc (addDocument E doc s fs).1.2).
  { apply entry_capped_set. rewrite addDocument_documents. apply get_set_eq. }
  split; exact H.
Qed.

Lemma search_no_index s query limit :
  index s = None -> search s query limit = (Success [], []).
Proof. unfold search. by intros ->. Qed.

Lemma search_blank s query limit :
  Spec.blank query = true -> search s query limit = (Success [], []).
Proof.
  intros Hb. apply trim_nil in Hb. unfold search. rewrite Hb.
  by destruct (index s).
Qed.

(** C5.  A rebuild with zero entries, by [rebuildFromDocuments] on no
    documents or by [rebuildIndex] on an empty entry map, returns
    normally and leaves no index object; every search on the state it
    leaves succeeds with the empty list and hands no query to the
    text-indexing primitive. *)
Theorem rebuild_zero_entries E s fs query limit :
  let '(r, s1, _) := rebuildFromDocuments E [] s fs in
  let '(c, s2, _) := rebuildIndex E (with_documents [] s) fs in
  r = Success tt /\ index s1 = None
  /\ search s1 query limit = (Success [], [])
  /\ c = Returned tt /\ index s2 = None
  /\ search s2 query limit = (Success [], []).
Proof. simpl. repeat split. Qed.

(** C7.  On a blank query, and on any query when there is no index
    object, [search] returns the successful result with the empty list
    (and does not call the text-indexing primitive). *)
Theorem search_blank_or_no_index s query limit :
  Spec.blank query = true \/ index s = None ->
  search s query limit = (Success [], []).
Proof. intros [H|H]; [by apply search_blank | by apply search_no_index]. Qed.

(** C9.  Removing the only entry of the index succeeds, leaves no index
    object and an empty entry map, and leaves the disk, and with it the
    persisted index file, as it was: [saveIndex] on a state without
    index object returns without writing. *)
Theorem removeDocument_last E id s fs :
  JsMap.has id (documents s) = true ->
  JsMap.delete id (documents s) = [] ->
  removeDocument E id s fs = (Success tt, with_index None (with_documents [] s), fs)
  /\ saveIndex E (with_index None (with_documents [] s)) fs = (Returned tt, fs).
Proof.
  intros Hhas Hdel. split; [|done].
  unfold removeDocument. rewrite Hhas, Hdel. done.
Qed.

(** C8.  [cleanQuery] normalises every query as specified: the text
    it works on is the terms of the query (the runs of word, hyphen and
    underscore characters) joined by single spaces; a single term of
    more than two characters is returned as its prefix-wildcard form
    followed by the term, and anything else as that joined text. *)
Theorem cleanQuery_normalizes query :
  cleanQuery query = Spec.normalized_query query.
Proof.
  unfold cleanQuery, Spec.normalized_query. cbv zeta.
  rewrite cleaned_join.
  rewrite (split_join_sp (N.eqb Js.SPACE)); [|done|apply query_terms_clean].
  pose proof (query_terms_clean query) as Hterms.
  destruct (Spec.query_terms query) as [|w [|w' ws]].
  - done.
  - inversion Hterms as [|? ? [Hw _] _]; subst. simpl Js.join_sp.
    destruct w; done.
  - inversion Hterms as [|? ? [Hw _] _]; subst.
    destruct (Js.join_sp (w :: w' :: ws)) eqn:Hj; [|done].
    simpl in Hj. by destruct w.
Qed.

Lemma hit_result_known s query hit r :
  Spec.index_keyed s -> hit_result s query hit = Some r ->
  res_id r = hit.1 /\ JsMap.has hit.1 (documents s) = true.
Proof.
  intros Hk. unfold hit_result, JsMap.has.
  destruct (JsMap.get hit.1 (documents s)) as [doc|] eqn:Hg; [|done].
  intros [= <-]. simpl. split; [|done].
  exact (get_keyed ie_id _ _ _ Hk Hg).
Qed.

Lemma omap_hit_result_length s query (cut : list (jsstring * Score P)) :
  length (omap (hit_result s query) cut)
  = length (List.filter (fun h => JsMap.has h.1 (documents s)) cut).
Proof.
  induction cut as [|h cut IH]; simpl; [done|].
  unfold hit_result at 1, JsMap.has at 1.
  destruct (JsMap.get h.1 (documents s)); simpl; f_equal; exact IH.
Qed.

Lemma filter_length_exists {A} (f : A -> bool) (l : list A) :
  Exists (fun x => f x = false) l ->
  (length (List.filter f l) < length l)%nat.
Proof.
  induction 1 as [x l Hx | x l _ IH]; simpl.
  - rewrite Hx. pose proof (List.filter_length_le f l). lia.
  - destruct (f x); simpl; lia.
Qed.

(** C10.  On an entry map keyed by the ids of its entries, every result
    of [search] has an id present in that map.  When the primitive was
    consulted, the results are the hits left after the cut at [limit]
    whose id is in the map, the other hits of the cut being dropped: so
    if one of the first [limit] hits is not in the map, fewer than
    [limit] results are returned although the primitive matched at
    least [limit] documents. *)
Theorem search_results_known s query limit results :
  Spec.index_keyed s ->
  (search s query limit).1 = Success results ->
  Forall (fun r => JsMap.has (res_id r) (documents s) = true) results
  /\ forall idx hits,
       index s = Some idx -> Spec.blank query = false -> cleanQuery query <> [] ->
       lunr_search P idx (cleanQuery query) = Some hits ->
       let cut := Js.slice0 limit hits in
       length results
       = length (List.filter (fun h => JsMap.has h.1 (documents s)) cut)
       /\ (Exists (fun h => JsMap.has h.1 (documents s) = false) cut ->
           (0 <= limit <= Z.of_nat (length hits))%Z ->
           (Z.of_nat (length results) < limit)%Z).
Proof.
  intros Hk Hs. split.
  - unfold search in Hs.
    destruct (index s) as [idx|]; [|injection Hs as <-; constructor].
    destruct (Js.trim query); [injection Hs as <-; constructor|].
    destruct (cleanQuery query) as [|c q]; [injection Hs as <-; constructor|].
    destruct (lunr_search P idx (c :: q)) as [hits|]; [|done].
    injection Hs as <-. apply Forall_forall. intros r Hr.
    apply list_elem_of_omap in Hr. destruct Hr as (hit & _ & Hr).
    destruct (hit_result_known _ _ _ _ Hk Hr) as [-> H]. exact H.
  - intros idx hits Hidx Hblank Hq Hhits cut.
    unfold search in Hs. rewrite Hidx in Hs.
    destruct (Js.trim query) eqn:Ht.
    { apply trim_nil in Ht. congruence. }
    destruct (cleanQuery query) as [|c q]; [done|].
    rewrite Hhits in Hs. injection Hs as <-.
    fold cut. rewrite omap_hit_result_length. split; [done|].
    intros Hex [H0 Hle]. apply filter_length_exists in Hex.
    assert (length cut = Z.to_nat limit) as Hcut.
    { unfold cut, Js.slice0. destruct (Z.ltb_spec limit 0); [lia|].
      rewrite length_take. lia. }
    lia.
Qed.

End IndexFacts.

(** ** More on the search index *)

Section MoreMapFacts.
Context {V : Type}.
Implicit Types (m : JsMap V) (k : jsstring) (v : V).

Lemma set_set_eq k v v' m : JsMap.set k v (JsMap.set k v' m) = JsMap.set k v m.
Proof.
  induction m as [|[k' v0] m IH]; simpl.
  - by rewrite decide_True.
  - destruct (decide (k = k')) as [->|Hne]; simpl.
    + by rewrite decide_True.
    + rewrite decide_False by done. by rewrite IH.
Qed.

Lemma get_delete_eq k m : JsMap.get k (JsMap.delete k m) = None.
Proof.
  unfold JsMap.delete. induction m as [|[k' v'] m IH]; simpl; [done|].
  destruct (bool_decide (k' = k)) eqn:Hk; simpl; [exact IH|].
  apply bool_decide_eq_false in Hk. rewrite decide_False by congruence. exact IH.
Qed.

Lemma get_delete_ne k k' m :
  k <> k' -> JsMap.get k' (JsMap.delete k m) = JsMap.get k' m.
Proof.
  intros Hne. unfold JsMap.delete. induction m as [|[k0 v0] m IH]; simpl; [done|].
  destruct (bool_decide (k0 = k)) eqn:Hk; simpl.
  - apply bool_decide_eq_true in Hk. subst k0. by rewrite decide_False.
  - destruct (decide (k' = k0)); [done | exact IH].
Qed.

Lemma set_fresh k v m :
  k ∉ map fst m -> JsMap.set k v m = m ++ [(k, v)].
Proof.
  induction m as [|[k' v'] m IH]; simpl; [done|].
  intros Hk. apply not_elem_of_cons in Hk as [Hne Hk].
  rewrite decide_False by done. by rewrite IH.
Qed.

Lemma keys_set_elem k v m k' :
  k' ∈ map fst (JsMap.set k v m) <-> k' = k \/ k' ∈ map fst m.
Proof.
  induction m as [|[k0 v0] m IH]; simpl.
  - rewrite list_elem_of_singleton, elem_of_nil. tauto.
  - destruct (decide (k = k0)) as [->|Hne]; simpl; rewrite !elem_of_cons.
    + tauto.
    + rewrite IH. tauto.
Qed.

Lemma unique_keys_set k v m :
  Spec.unique_keys m -> Spec.unique_keys (JsMap.set k v m).
Proof.
  unfold Spec.unique_keys. induction m as [|[k0 v0] m IH]; simpl.
  - intros _. apply NoDup_singleton.
  - intros Hnd. apply NoDup_cons in Hnd as [Hk0 Hnd].
    destruct (decide (k = k0)) as [->|Hne]; simpl.
    + by apply NoDup_cons.
    + apply NoDup_cons. split; [|by apply IH].
      rewrite keys_set_elem. intros [?|?]; congruence.
Qed.

Lemma unique_keys_delete k m :
  Spec.unique_keys m -> Spec.unique_keys (JsMap.delete k m).
Proof.
  unfold Spec.unique_keys, JsMap.delete.
  induction m as [|[k0 v0] m IH]; simpl; [done|].
  intros Hnd. apply NoDup_cons in Hnd as [Hk0 Hnd].
  destruct (bool_decide (k0 = k)); simpl; [by apply IH|].
  apply NoDup_cons. split; [|by apply IH].
  intros Hin. apply Hk0. apply list_elem_of_fmap in Hin as ([k1 v1] & -> & Hin).
  apply list_elem_of_In, List.filter_In in Hin as [Hin _].
  apply list_elem_of_fmap. exists (k1, v1). split; [done|]. by apply list_elem_of_In.
Qed.

Lemma unique_keys_fold_set {A} (key : A -> jsstring) (val : A -> V) (l : list A) m :
  Spec.unique_keys m ->
  Spec.unique_keys (fold_left (fun m a => JsMap.set (key a) (val a) m) l m).
Proof.
  revert m. induction l as [|a l IH]; intros m Hm; simpl; [done|].
  by apply IH, unique_keys_set.
Qed.

(** Rebuilding a map from its values, each under its own key, gives the
    map back. *)
Lemma fold_set_values (key : V -> jsstring) m acc :
  Spec.unique_keys (acc ++ m) ->
  Forall (fun kv => key kv.2 = kv.1) m ->
  fold_left (fun m v => JsMap.set (key v) v m) (JsMap.values m) acc = acc ++ m.
Proof.
  revert acc. induction m as [|[k v] m IH]; intros acc Hnd Hk; simpl.
  - by rewrite app_nil_r.
  - apply Forall_cons in Hk as [Hkv Hk]. simpl in Hkv. rewrite Hkv.
    unfold Spec.unique_keys in Hnd. rewrite fmap_app in Hnd. simpl in Hnd.
    pose proof Hnd as Hnd'. apply NoDup_app in Hnd' as (_ & Hdis & _).
    rewrite set_fresh.
    + rewrite IH; [by rewrite <- app_assoc | | done].
      unfold Spec.unique_keys. by rewrite <- app_assoc, fmap_app.
    + intros Hin. apply (Hdis k Hin). left.
Qed.

Lemma find_app {A} (f : A -> bool) (l1 l2 : list A) :
  List.find f (l1 ++ l2)
  = match List.find f l1 with Some x => Some x | None => List.find f l2 end.
Proof. induction l1 as [|a l1 IH]; simpl; [done|]. by destruct (f a). Qed.

Lemma get_fold_set {A} (key : A -> jsstring) (val : A -> V) (l : list A) m k :
  JsMap.get k (fold_left (fun m a => JsMap.set (key a) (val a) m) l m)
  = match List.find (fun a => bool_decide (key a = k)) (rev l) with
    | Some a => Some (val a)
    | None => JsMap.get k m
    end.
Proof.
  revert m. induction l as [|a l IH]; intros m; simpl; [done|].
  rewrite IH, find_app.
  destruct (List.find _ (rev l)); [done|]. simpl.
  destruct (bool_decide (key a = k)) eqn:Hk.
  - apply bool_decide_eq_true in Hk. subst k. apply get_set_eq.
  - apply bool_decide_eq_false in Hk. by apply get_set_ne.
Qed.

End MoreMapFacts.

Section MoreIndexFacts.
Context {P : Platform}.
Import SearchIndex.
Implicit Types (s : SearchIndex.t P) (fs : JsMap (File P)).

Lemma values_nil {V} (m : JsMap V) : JsMap.values m = [] <-> m = [].
Proof. destruct m; split; done. Qed.

Lemma rebuildIndex_index E s fs :
  index (rebuildIndex E s fs).1.2 = None <-> documents s = [].
Proof.
  rewrite <- values_nil. unfold rebuildIndex, saveIndex.
  destruct (JsMap.values (documents s)); simpl; [done|].
  destruct (writeFile _ _ _ _); simpl; split; done.
Qed.

Lemma rebuildIndex_tracks E s fs : Spec.index_tracks (rebuildIndex E s fs).1.2.
Proof.
  unfold Spec.index_tracks. rewrite rebuildIndex_documents. apply rebuildIndex_index.
Qed.

Lemma addDocument_state E doc s fs :
  (addDocument E doc s fs).1.2
  = (rebuildIndex E
       (with_documents (JsMap.set (doc_id doc) (entry_of doc) (documents s)) s) fs).1.2.
Proof. unfold addDocument. by destruct (rebuildIndex E _ fs) as [[[] ?] ?]. Qed.

Lemma removeDocument_state E id s fs :
  JsMap.has id (documents s) = true ->
  (removeDocument E id s fs).1.2
  = (rebuildIndex E (with_documents (JsMap.delete id (documents s)) s) fs).1.2.
Proof.
  intros Hh. unfold removeDocument. rewrite Hh. simpl.
  by destruct (rebuildIndex E _ fs) as [[[] ?] ?].
Qed.

Lemma rebuildFromDocuments_state E docs s fs :
  (rebuildFromDocuments E docs s fs).1.2
  = (rebuildIndex E
       (with_documents
          (fold_left (fun m doc => JsMap.set (doc_id doc) (entry_of doc) m) docs []) s)
       fs).1.2.
Proof. unfold rebuildFromDocuments. by destruct (rebuildIndex E _ fs) as [[[] ?] ?]. Qed.

(** X1.  The index object follows the entry map: a state in which there
    is an index object exactly when there are entries stays so under
    [addDocument], [updateDocument], [removeDocument],
    [rebuildFromDocuments] and [clearIndex]. *)
Theorem index_tracks_entries E s fs doc id docs :
  Spec.index_tracks s ->
  Spec.index_tracks (addDocument E doc s fs).1.2
  /\ Spec.index_tracks (updateDocument E doc s fs).1.2
  /\ Spec.index_tracks (removeDocument E id s fs).1.2
  /\ Spec.index_tracks (rebuildFromDocuments E docs s fs).1.2
  /\ Spec.index_tracks (clearIndex E s fs).1.2.
Proof.
  intros Hs.
  assert (Spec.index_tracks (addDocument E doc s fs).1.2) as Hadd
    by (rewrite addDocument_state; apply rebuildIndex_tracks).
  repeat split; try exact (proj1 Hadd); try exact (proj2 Hadd).
  - destruct (JsMap.has id (documents s)) eqn:Hh.
    + rewrite removeDocument_state by done. apply rebuildIndex_tracks.
    + unfold removeDocument. rewrite Hh. apply Hs.
  - destruct (JsMap.has id (documents s)) eqn:Hh.
    + rewrite removeDocument_state by done. apply rebuildIndex_tracks.
    + unfold removeDocument. rewrite Hh. apply Hs.
  - rewrite rebuildFromDocuments_state. apply rebuildIndex_tracks.
  - rewrite rebuildFromDocuments_state. apply rebuildIndex_tracks.
Qed.

Lemma with_eta s : with_documents (documents s) (with_index (index s) s) = s.
Proof. by destruct s. Qed.

(** What a rebuild that saved its index wrote is what a load reads. *)
Lemma rebuildIndex_load E s fs s' fs' :
  Spec.index_keyed s -> Spec.unique_keys (documents s) -> documents s <> [] ->
  rebuildIndex E s fs = (Returned tt, s', fs') ->
  loadIndex s' fs' = s'.
Proof.
  intros Hk Hu Hne. unfold rebuildIndex, saveIndex, writeFile.
  destruct (JsMap.values (documents s)) as [|e es] eqn:Hv.
  { apply values_nil in Hv. done. }
  simpl. destruct (write_ok E (indexPath s)); [|done].
  intros [= <- <-]. unfold loadIndex. simpl. rewrite get_set_eq.
  unfold map_of_entries.
  rewrite (fold_set_values ie_id (documents s) []); [|done|done].
  simpl. by destruct s.
Qed.

(** X2.  Round trip of the persisted index: after a successful
    [SearchIndex.addDocument] on an entry map with unique keys that are
    the ids of its entries, [loadIndex] from the disk gives back the
    state in memory, index object and entries. *)
Theorem index_save_load E doc s fs :
  Spec.index_keyed s -> Spec.unique_keys (documents s) ->
  (addDocument E doc s fs).1.1 = Success tt ->
  loadIndex (addDocument E doc s fs).1.2 (addDocument E doc s fs).2
  = (addDocument E doc s fs).1.2.
Proof.
  intros Hk Hu. unfold addDocument.
  destruct (rebuildIndex E _ fs) as [[[[]|] s2] fs2] eqn:Hr; simpl; [|done].
  intros _. eapply rebuildIndex_load; [| | |exact Hr]; simpl.
  - by apply Forall_set.
  - by apply unique_keys_set.
  - by destruct (documents s) as [|[? ?] ?]; simpl; [|destruct (decide _)].
Qed.

Lemma search_results_has s query limit results :
  Spec.index_keyed s ->
  (search s query limit).1 = Success results ->
  Forall (fun r => JsMap.has (res_id r) (documents s) = true) results.
Proof.
  intros Hk Hs. unfold search in Hs.
  destruct (index s) as [idx|]; [|injection Hs as <-; constructor].
  destruct (Js.trim query); [injection Hs as <-; constructor|].
  destruct (cleanQuery query) as [|c q]; [injection Hs as <-; constructor|].
  destruct (lunr_search P idx (c :: q)) as [hits|]; [|done].
  injection Hs as <-. apply Forall_forall. intros r Hr.
  apply list_elem_of_omap in Hr. destruct Hr as (hit & _ & Hr).
  destruct (hit_result_known _ _ _ _ Hk Hr) as [-> H]. exact H.
Qed.

(** X3.  Deletion is complete in the index: whatever [removeDocument]
    returned for an id, no later search has a result with that id. *)
Theorem removed_never_found E id s fs query limit results :
  Spec.index_keyed s ->
  (search (removeDocument E id s fs).1.2 query limit).1 = Success results ->
  Forall (fun r => res_id r <> id) results.
Proof.
  intros Hk Hs.
  pose proof (search_results_has _ _ _ _ (index_keyed_removeDocument E id s fs Hk) Hs)
    as Hall.
  eapply Forall_impl; [exact Hall|]. simpl. intros r Hr Heq. rewrite Heq in Hr.
  rewrite removeDocument_documents in Hr. unfold JsMap.has in Hr.
  destruct (JsMap.get id (documents s)) eqn:Hg; simpl in Hr.
  - by rewrite get_delete_eq in Hr.
  - by rewrite Hg in Hr.
Qed.

(** X4.  [rebuildFromDocuments] forgets the entries it finds and leaves,
    for every id, the entry built from the last document given with that
    id, and no entry for an id no document has. *)
Theorem rebuildFromDocuments_entries E docs s fs id :
  JsMap.get id (documents (rebuildFromDocuments E docs s fs).1.2)
  = entry_of <$> Spec.last_with_id id docs.
Proof.
  rewrite rebuildFromDocuments_documents.
  rewrite (get_fold_set doc_id entry_of). unfold Spec.last_with_id.
  by destruct (List.find _ (rev docs)).
Qed.

(** X5.  Indexing the same document a second time changes nothing: the
    result, the state and the disk are those of the first call. *)
Theorem addDocument_idempotent E doc s fs :
  addDocument E doc (addDocument E doc s fs).1.2 (addDocument E doc s fs).2
  = addDocument E doc s fs.
Proof.
  unfold addDocument, rebuildIndex, saveIndex, writeFile. simpl.
  destruct (JsMap.values (JsMap.set (doc_id doc) (entry_of doc) (documents s)))
    as [|e es] eqn:Hv; simpl.
  - rewrite set_set_eq, Hv. done.
  - destruct (write_ok E (indexPath s)) eqn:Hw; simpl;
      rewrite set_set_eq, Hv; simpl; rewrite Hw; [|done].
    by rewrite set_set_eq.
Qed.

(** X6.  For a limit that is not negative, [search] returns at most
    [limit] results. *)
Theorem search_at_most_limit s query limit results :
  (0 <= limit)%Z ->
  (search s query limit).1 = Success results ->
  (Z.of_nat (length results) <= limit)%Z.
Proof.
  intros Hl Hs. unfold search in Hs.
  destruct (index s) as [idx|]; [|injection Hs as <-; simpl; lia].
  destruct (Js.trim query); [injection Hs as <-; simpl; lia|].
  destruct (cleanQuery query) as [|c q]; [injection Hs as <-; simpl; lia|].
  destruct (lunr_search P idx (c :: q)) as [hits|]; [|done].
  injection Hs as <-. rewrite omap_hit_result_length.
  pose proof (List.filter_length_le
                (fun h : jsstring * Score P => JsMap.has h.1 (documents s))
                (Js.slice0 limit hits)) as Hle.
  unfold Js.slice0 in *. destruct (Z.ltb_spec limit 0); [lia|].
  rewrite length_take in Hle. lia.
Qed.

Lemma omap_hit_result_all s query (cut : list (jsstring * Score P)) :
  Spec.index_keyed s ->
  Forall (fun h => JsMap.has h.1 (documents s) = true) cut ->
  map res_id (omap (hit_result s query) cut) = map fst cut
  /\ map res_score (omap (hit_result s query) cut) = map snd cut.
Proof.
  intros Hk. induction 1 as [|h cut Hh _ [IH1 IH2]]; [done|].
  assert (exists r, hit_result s query h = Some r
                    /\ res_id r = h.1 /\ res_score r = h.2) as (r & Hr & Hid & Hsc).
  { unfold hit_result. unfold JsMap.has in Hh.
    destruct (JsMap.get h.1 (documents s)) as [e|] eqn:Hg; [|done].
    eexists. split; [done|]. split; [|done]. exact (get_keyed ie_id _ _ _ Hk Hg). }
  change (omap (hit_result s query) (h :: cut))
    with (match hit_result s query h with
          | Some y => y :: omap (hit_result s query) cut
          | None => omap (hit_result s query) cut
          end).
  rewrite Hr. simpl. by rewrite IH1, IH2, Hid, Hsc.
Qed.

(** X7.  When every hit of the primitive is in the entry map, [search]
    returns one result for each of the first [limit] hits, in the rank
    order of the primitive and with its scores. *)
Theorem search_follows_primitive s query limit idx hits :
  Spec.index_keyed s ->
  index s = Some idx -> Spec.blank query = false -> cleanQuery query <> [] ->
  lunr_search P idx (cleanQuery query) = Some hits ->
  Forall (fun h => JsMap.has h.1 (documents s) = true) hits ->
  exists results,
    search s query limit = (Success results, [cleanQuery query])
    /\ map res_id results = map fst (Js.slice0 limit hits)
    /\ map res_score results = map snd (Js.slice0 limit hits).
Proof.
  intros Hk Hidx Hb Hq Hhits Hall. unfold search. rewrite Hidx.
  destruct (Js.trim query) eqn:Ht.
  { apply trim_nil in Ht. congruence. }
  destruct (cleanQuery query) as [|c q] eqn:Hc; [done|].
  rewrite Hhits. eexists. split; [done|].
  apply omap_hit_result_all; [done|].
  unfold Js.slice0. destruct (limit <? 0)%Z; by apply Forall_take.
Qed.

Lemma split_runs_lengths b (x : jsstring) :
  Forall (fun w => (length w <= length x)%nat) (Js.split_runs_from b x).
Proof.
  revert b. induction x as [|c x IH]; intros b; simpl.
  - by repeat constructor.
  - destruct (Js.is_space c).
    + destruct b; [|constructor; [simpl; lia|]];
        (eapply Forall_impl; [apply IH|]; simpl; intros; lia).
    + specialize (IH false).
      destruct (Js.split_runs_from false x) as [|w ws]; simpl;
        [constructor; [simpl; lia | constructor]|].
      apply Forall_cons in IH as [Hw Hws]. constructor; [simpl; lia|].
      eapply Forall_impl; [exact Hws|]. simpl. intros. lia.
Qed.

Lemma best_match_fold lowerContent words init i w :
  fold_left
    (fun best word =>
       match indexOf word lowerContent with
       | Some i =>
           match best with
           | None => Some (i, word)
           | Some (bi, _) => if (i <? bi)%nat then Some (i, word) else best
           end
       | None => best
       end)
    words init = Some (i, w) ->
  init = Some (i, w) \/ w ∈ words.
Proof.
  revert init. induction words as [|word words IH]; intros init; simpl; [by left|].
  intros H. apply IH in H as [H|H]; [|right; by right].
  destruct (indexOf word lowerContent) as [j|]; [|by left].
  destruct init as [[bi bw]|].
  - destruct (j <? bi)%nat; [|by left]. injection H as <- <-. right. left.
  - injection H as <- <-. right. left.
Qed.

Lemma truncateContent_length_le content maxLength :
  (length (truncateContent content maxLength) <= N.to_nat maxLength + 3)%nat.
Proof.
  pose proof (truncateContent_length content maxLength) as H.
  destruct (N.leb_spec (N.of_nat (length content)) maxLength); lia.
Qed.

(** X9.  A snippet is never longer than the window of 150 characters,
    the matched word and two ellipsis markers: at most 156 characters
    more than the lower-cased query. *)
Theorem extractSnippet_length content query :
  (length (extractSnippet (P := P) content query)
   <= 156 + length (toLowerCase P query))%nat.
Proof.
  unfold extractSnippet.
  destruct (best_match _ _) as [[bestIndex bestWord]|] eqn:Hb.
  - assert (length bestWord <= length (toLowerCase P query))%nat as Hw.
    { unfold best_match in Hb. apply best_match_fold in Hb as [Hb|Hb]; [done|].
      apply list_elem_of_In, List.filter_In in Hb as [Hb _].
      pose proof (split_runs_lengths false (toLowerCase P query)) as Hall.
      rewrite Forall_forall in Hall. apply Hall. by apply list_elem_of_In. }
    set (start := (bestIndex - 75)%nat).
    set (stop := Nat.min (length content) (bestIndex + length bestWord + 75)).
    assert (length (take (stop - start) (drop start content))
            <= 150 + length bestWord)%nat as Hs.
    { rewrite length_take. unfold start, stop. lia. }
    destruct (0 <? start)%nat, (stop <? length content)%nat;
      rewrite ?length_app; simpl; lia.
  - rewrite length_app. pose proof (truncateContent_length_le content 150) as H.
    simpl in *. lia.
Qed.

(** X8.  After a [clearIndex] whose unlink succeeds, a load from the disk
    gives the cleared state again, and every search succeeds with no
    result and no call of the primitive. *)
Theorem clearIndex_clears E s fs query limit :
  unlink_ok E (indexPath s) = true ->
  let '(r, s', fs') := clearIndex E s fs in
  r = Success tt
  /\ loadIndex s' fs' = s'
  /\ search s' query limit = (Success [], []).
Proof.
  intros Hu. unfold clearIndex, unlink_caught. rewrite Hu.
  split; [done|]. split; [|done].
  unfold loadIndex. simpl. by rewrite get_delete_eq.
Qed.

(** X22.  [search] fails only when the text-indexing primitive throws
    on the cleaned query; every other call succeeds. *)
Theorem search_failure_is_primitive s query limit e :
  (search s query limit).1 = Failure e ->
  e = Caught
  /\ exists idx, index s = Some idx /\ lunr_search P idx (cleanQuery query) = None.
Proof.
  unfold search. destruct (index s) as [idx|]; [|done].
  destruct (Js.trim query); [done|].
  destruct (cleanQuery query) as [|c q]; [done|].
  destruct (lunr_search P idx (c :: q)) eqn:Hl; [done|].
  intros [= <-]. split; [done|]. by exists idx.
Qed.

(** X23.  [SearchIndex.addDocument] inserts or replaces the entry of the
    document's id and leaves every other entry as it was, also when the
    save of the index fails. *)
Theorem addDocument_entries E doc s fs id :
  JsMap.get id (documents (addDocument E doc s fs).1.2)
  = if decide (id = doc_id doc) then Some (entry_of doc)
    else JsMap.get id (documents s).
Proof.
  rewrite addDocument_documents. destruct (decide (id = doc_id doc)) as [->|Hne].
  - apply get_set_eq.
  - by apply get_set_ne.
Qed.

(** X24.  [removeDocument] on an id without entry fails with "not found
    in index" and changes neither state nor disk; on an id with an entry
    it removes that entry, whether the save succeeds or not.  Either way
    the other entries stay. *)
Theorem removeDocument_entries E id id' s fs :
  let '(r, s', fs') := removeDocument E id s fs in
  (if JsMap.has id (documents s)
   then r = Success tt \/ r = Failure Caught
   else r = Failure (NotFoundInIndex id) /\ s' = s /\ fs' = fs)
  /\ JsMap.get id' (documents s')
     = if decide (id' = id) then None else JsMap.get id' (documents s).
Proof.
  pose proof (removeDocument_documents E id s fs) as Hd.
  unfold removeDocument in *. unfold JsMap.has in *.
  destruct (JsMap.get id (documents s)) as [e|] eqn:Hg; simpl in *.
  - destruct (rebuildIndex E _ fs) as [[[[]|] s2] fs2]; simpl in *;
      (split; [auto|]); rewrite Hd;
      (destruct (decide (id' = id)) as [->|Hne];
       [apply get_delete_eq | by apply get_delete_ne]).
  - split; [done|]. destruct (decide (id' = id)) as [->|Hne]; done.
Qed.

Lemma tokens_all_sep sep (x : jsstring) :
  Forall (fun c => sep c = true) x -> Spec.tokens sep x = [].
Proof.
  induction 1 as [|c x Hc _ IH]; [done|]. by rewrite tokens_sep_cons.
Qed.

(** X25.  A query without any word, hyphen or underscore character gives
    the empty cleaned query, and [search] succeeds with no result without
    calling the primitive. *)
Theorem search_without_terms s query limit :
  Forall (fun c => Spec.is_term_char c = false) query ->
  cleanQuery query = [] /\ search s query limit = (Success [], []).
Proof.
  intros Hq.
  assert (cleanQuery query = []) as Hc.
  { unfold cleanQuery. cbv zeta. rewrite cleaned_join.
    unfold Spec.query_terms. rewrite tokens_all_sep; [done|].
    eapply Forall_impl; [exact Hq|]. simpl. by intros c ->. }
  split; [done|]. unfold search. rewrite Hc.
  destruct (index s); [|done]. by destruct (Js.trim query).
Qed.

Lemma Forall_join_sp (Q : N -> Prop) ws :
  Q Js.SPACE -> Forall (Forall Q) ws -> Forall Q (Js.join_sp ws).
Proof.
  intros Hsp. induction 1 as [|w ws Hw Hws IH]; [constructor|].
  simpl. destruct ws; [done|]. apply Forall_app. split; [done|]. by constructor.
Qed.

(** X26.  The cleaned query holds only word, hyphen and underscore
    characters, single spaces and the wildcard star: nothing else of the
    query reaches the primitive. *)
Theorem cleanQuery_alphabet query :
  Forall (fun c => Spec.is_term_char c = true \/ c = Js.SPACE \/ c = 42)
         (cleanQuery query).
Proof.
  set (Q := fun c => Spec.is_term_char c = true \/ c = Js.SPACE \/ c = 42).
  assert (Forall (Forall Q) (Spec.query_terms query)) as Hterms.
  { unfold Spec.query_terms, Spec.tokens. apply Forall_forall. intros w Hw.
    apply list_elem_of_In, List.filter_In in Hw as [Hw _].
    apply list_elem_of_In in Hw.
    pose proof (split_on_pieces (fun c => negb (Spec.is_term_char c)) query) as H.
    rewrite Forall_forall in H. eapply Forall_impl; [exact (H w Hw)|].
    simpl. intros c Hc. left. by apply negb_false_iff. }
  assert (Forall Q (Js.join_sp (Spec.query_terms query))) as Hjoin
    by (apply Forall_join_sp; [right; by left | done]).
  unfold cleanQuery. cbv zeta. rewrite cleaned_join.
  rewrite (split_join_sp (N.eqb Js.SPACE)); [|done|apply query_terms_clean].
  destruct (Spec.query_terms query) as [|w [|w' ws]].
  - constructor.
  - apply Forall_cons in Hterms as [Hw _]. simpl Js.join_sp in *.
    destruct w as [|c w]; [constructor|].
    destruct (2 <? length (c :: w))%nat; [|done].
    apply Forall_app. split; [done|]. apply Forall_app. split; [|done].
    change (Js.lit "* ") with [42; Js.SPACE].
    repeat apply Forall_cons_2; unfold Q; [right; by right | right; by left | constructor].
  - destruct (Js.join_sp (w :: w' :: ws)) eqn:Hj; [constructor | done].
Qed.

End MoreIndexFacts.

(** ** The reconciler *)

Section WatcherFacts.
Context {P : Platform}.
Import DocumentStore FileWatcher.
Implicit Types (s : DocumentStore.t) (fs : JsMap (File P)) (m : JsMap Document).
Implicit Types (w : @World P).

Lemma count_path_cons p k d m :
  Spec.count_path p ((k, d) :: m)
  = ((if bool_decide (doc_path d = p) then 1 else 0) + Spec.count_path p m)%nat.
Proof. unfold Spec.count_path. simpl. by destruct (bool_decide _). Qed.

Lemma find_by_path_cons p k d m :
  find_by_path p ((k, d) :: m)
  = if bool_decide (doc_path d = p) then Some d else find_by_path p m.
Proof. done. Qed.

Lemma count_find_none p m :
  find_by_path p m = None -> Spec.count_path p m = 0%nat.
Proof.
  induction m as [|[k d] m IH]; [done|].
  rewrite find_by_path_cons, count_path_cons.
  destruct (bool_decide _); [done | exact IH].
Qed.

Lemma count_find_some p m d :
  find_by_path p m = Some d -> (1 <= Spec.count_path p m)%nat.
Proof.
  induction m as [|[k d'] m IH]; [done|].
  rewrite find_by_path_cons, count_path_cons.
  destruct (bool_decide _); [lia|]. intros H. specialize (IH H). lia.
Qed.

Lemma count_delete_le p k m :
  (Spec.count_path p (JsMap.delete k m) <= Spec.count_path p m)%nat.
Proof.
  induction m as [|[k' d] m IH]; [done|].
  unfold JsMap.delete in *. simpl. destruct (negb _).
  - rewrite !count_path_cons. lia.
  - rewrite count_path_cons. lia.
Qed.

(** Evicting the record the lookup by path found leaves fewer records
    for that path. *)
Lemma count_delete_found p m d :
  Forall (fun kv => doc_id kv.2 = kv.1) m ->
  find_by_path p m = Some d ->
  (Spec.count_path p (JsMap.delete (doc_id d) m) < Spec.count_path p m)%nat.
Proof.
  induction 1 as [|[k d'] m Hk _ IH]; [done|]. simpl in Hk.
  rewrite find_by_path_cons, count_path_cons.
  destruct (bool_decide (doc_path d' = p)) eqn:Hp.
  - intros [= <-]. unfold JsMap.delete. simpl.
    rewrite bool_decide_true by done. simpl.
    pose proof (count_delete_le p (doc_id d') m) as Hle.
    unfold JsMap.delete in Hle. lia.
  - intros Hf. specialize (IH Hf). unfold JsMap.delete in *. simpl.
    destruct (negb _); [|lia]. rewrite count_path_cons, Hp. lia.
Qed.

Lemma count_set_le p k d m :
  (Spec.count_path p (JsMap.set k d m) <= S (Spec.count_path p m))%nat.
Proof.
  induction m as [|[k' d'] m IH]; simpl.
  - rewrite count_path_cons. destruct (bool_decide _); simpl; lia.
  - destruct (decide (k = k')); rewrite !count_path_cons;
      repeat destruct (bool_decide _); lia.
Qed.

(** The lookup by path either finds a live document and changes
    nothing, or fails and leaves no record for the path if there was at
    most one. *)
Lemma getDocumentByPath_cases E p s fs :
  Spec.store_keyed s ->
  let '(r, s', fs') := getDocumentByPath E p s fs in
  Spec.store_keyed s'
  /\ match r with
     | Success _ => s' = s /\ fs' = fs /\ Spec.live p s fs = true
     | Failure _ =>
         Spec.live p s fs = false
         /\ ((Spec.count_path p (metadata s) <= 1)%nat ->
             Spec.count_path p (metadata s') = 0%nat)
     end.
Proof.
  intros Hk. unfold getDocumentByPath, Spec.live.
  destruct (find_by_path p (metadata s)) as [d|] eqn:Hf.
  - destruct (access (docPath s (doc_id d)) fs) eqn:Ha; [done|].
    pose proof (count_delete_found p _ d Hk Hf) as Hlt.
    unfold evict. destruct (saveMetadata E _ fs); simpl;
      (split; [by apply Forall_delete|]); (split; [done|]); lia.
  - split; [done|]. split; [done|]. intros _. by apply count_find_none.
Qed.

Lemma addDocument_cases E p content type meta s fs :
  Spec.store_keyed s ->
  let '(_, s', _) := addDocument E p content type meta s fs in
  Spec.store_keyed s'
  /\ (Spec.count_path p (metadata s') <= S (Spec.count_path p (metadata s)))%nat.
Proof.
  intros Hk. unfold addDocument.
  destruct (writeFile E _ _ fs) as [fs1|]; [|split; [done | lia]].
  destruct (saveMetadata E _ fs1); simpl;
    (split; [by apply Forall_set | apply count_set_le]).
Qed.

(** One run of the handler keeps the store keyed by ids and keeps at
    most one record for the path. *)
Lemma handleFileAdded_invariant X E p w :
  Spec.store_keyed (documentStore w) ->
  (Spec.count_path p (metadata (documentStore w)) <= 1)%nat ->
  Spec.store_keyed (documentStore (handleFileAdded X E p w))
  /\ (Spec.count_path p (metadata (documentStore (handleFileAdded X E p w))) <= 1)%nat.
Proof.
  intros Hk Hc. unfold handleFileAdded.
  destruct (isSupported X p); simpl; [|done].
  pose proof (getDocumentByPath_cases E p (documentStore w) (disk w) Hk) as Hget.
  destruct (getDocumentByPath E p (documentStore w) (disk w)) as [[r st1] fs1].
  destruct Hget as [Hk1 Hr]. destruct r as [d|e].
  - destruct Hr as (-> & _ & _). done.
  - destruct Hr as [_ H0]. specialize (H0 Hc).
    destruct (processFile X p) as [pf|]; simpl; [|split; [done | lia]].
    pose proof (addDocument_cases E p (pf_content pf) (pf_type pf) (pf_metadata pf)
                  st1 fs1 Hk1) as Hadd.
    destruct (addDocument E p _ _ _ st1 fs1) as [[r2 st2] fs2].
    destruct Hadd as [Hk2 Hc2]. destruct r2 as [doc|]; simpl.
    + destruct (SearchIndex.addDocument E doc (searchIndex w) fs2) as [[? ?] ?].
      simpl. split; [done | lia].
    + split; [done | lia].
Qed.

(** A run of the handler on a path that has a live document skips. *)
Lemma handleFileAdded_skip X E p w :
  Spec.live p (documentStore w) (disk w) = true ->
  handleFileAdded X E p w = w.
Proof.
  intros Hlive. unfold handleFileAdded.
  destruct (isSupported X p); simpl; [|done].
  unfold getDocumentByPath. unfold Spec.live in Hlive.
  destruct (find_by_path p (metadata (documentStore w))) as [d|]; [|done].
  rewrite Hlive. by destruct w.
Qed.

(** C6, as amended.  On a store that is keyed by ids and holds at most
    one record for the path, two runs of the [added] handler in sequence
    that end with a live document for the path end with exactly one
    record for it; and when the first run ends with a live document for
    the path, the second run skips and changes nothing. *)
Theorem handleFileAdded_twice X1 E1 X2 E2 filePath w :
  Spec.store_keyed (documentStore w) ->
  (Spec.count_path filePath (metadata (documentStore w)) <= 1)%nat ->
  let w1 := handleFileAdded X1 E1 filePath w in
  let w2 := handleFileAdded X2 E2 filePath w1 in
  Spec.live filePath (documentStore w2) (disk w2) = true ->
  Spec.count_path filePath (metadata (documentStore w2)) = 1%nat
  /\ (Spec.live filePath (documentStore w1) (disk w1) = true -> w2 = w1).
Proof.
  intros Hk Hc w1 w2 Hlive.
  destruct (handleFileAdded_invariant X1 E1 filePath w Hk Hc) as [Hk1 Hc1].
  destruct (handleFileAdded_invariant X2 E2 filePath w1 Hk1 Hc1) as [_ Hc2].
  split.
  - fold w1 w2 in Hc2. unfold Spec.live in Hlive.
    destruct (find_by_path filePath (metadata (documentStore w2))) as [d|] eqn:Hf;
      [|done].
    apply count_find_some in Hf. lia.
  - intros Hlive1. by apply handleFileAdded_skip.
Qed.

End WatcherFacts.

(** ** More on the document store *)

Section MoreStoreFacts.
Context {P : Platform}.
Import DocumentStore.
Implicit Types (s : DocumentStore.t) (fs : JsMap (File P)) (m : JsMap Document).

Lemma getDocument_unknown E id s fs :
  JsMap.get id (metadata s) = None ->
  getDocument E id s fs = (Failure (DocumentNotFound id), s, fs).
Proof. unfold getDocument. by intros ->. Qed.

(** X10.  [deleteDocument] removes the record of its id and no other,
    whatever it returns; a [getDocument] on that id afterwards fails with
    "not found" and changes nothing. *)
Theorem deleteDocument_removes E E' id id' s fs :
  let '(_, s', fs') := deleteDocument E id s fs in
  JsMap.get id' (metadata s')
  = (if decide (id' = id) then None else JsMap.get id' (metadata s))
  /\ getDocument E' id s' fs' = (Failure (DocumentNotFound id), s', fs').
Proof.
  unfold deleteDocument.
  destruct (JsMap.get id (metadata s)) as [doc|] eqn:Hg.
  - assert (forall s1 : DocumentStore.t,
              metadata s1 = JsMap.delete id (metadata s) ->
              JsMap.get id' (metadata s1)
              = (if decide (id' = id) then None else JsMap.get id' (metadata s)))
      as Hlook.
    { intros s1 ->. destruct (decide (id' = id)) as [->|Hne].
      - apply get_delete_eq.
      - by apply get_delete_ne. }
    destruct (saveMetadata E _ _); (split; [by apply Hlook|]);
      apply getDocument_unknown, get_delete_eq.
  - split; [|by apply getDocument_unknown].
    destruct (decide (id' = id)) as [->|Hne]; done.
Qed.

(** X11.  Self-healing: a [getDocument] on a record whose durable slot is
    gone fails, evicts that record and no other, and a second
    [getDocument] on the id fails with "not found"; the first failure
    says "file missing" when the manifest could be rewritten. *)
Theorem getDocument_evicts E E' id id' s fs doc :
  JsMap.get id (metadata s) = Some doc ->
  access (docPath s id) fs = false ->
  let '(r, s', fs') := getDocument E id s fs in
  r = (if write_ok E (metadataPath s) then Failure (DocumentFileMissing id)
       else Failure Caught)
  /\ getDocument E' id s' fs' = (Failure (DocumentNotFound id), s', fs')
  /\ (id' <> id -> JsMap.get id' (metadata s') = JsMap.get id' (metadata s)).
Proof.
  intros Hg Ha. unfold getDocument. rewrite Hg, Ha.
  unfold evict, saveMetadata, writeFile.
  change (metadataPath (with_metadata (JsMap.delete id (metadata s)) s))
    with (metadataPath s).
  destruct (write_ok E (metadataPath s)); simpl;
    (split; [done|]); (split; [by rewrite get_delete_eq|]);
    intros Hne; by apply get_delete_ne.
Qed.

(** X12.  What a failed [addDocument] leaves: when the write of the
    durable slot fails nothing has changed; when only the write of the
    manifest fails the call reports a failure, yet the record is in the
    store and [getDocument] returns it; when both writes succeed the
    call returns the record. *)
Theorem addDocument_outcomes E E' filePath content type meta s fs :
  let doc := new_document E filePath content type meta in
  let '(r, s', fs') := addDocument E filePath content type meta s fs in
  match write_ok E (docPath s (nanoid E)), write_ok E (metadataPath s) with
  | false, _ => r = Failure Caught /\ s' = s /\ fs' = fs
  | true, false =>
      r = Failure Caught
      /\ getDocument E' (nanoid E) s' fs' = (Success doc, s', fs')
  | true, true =>
      r = Success doc
      /\ getDocument E' (nanoid E) s' fs' = (Success doc, s', fs')
  end.
Proof.
  unfold addDocument, saveMetadata, writeFile. simpl.
  change (metadataPath (with_metadata _ s)) with (metadataPath s).
  destruct (write_ok E (docPath s (nanoid E))); [|done].
  assert (forall fs1,
            access (docPath s (nanoid E)) fs1 = true ->
            getDocument E' (nanoid E)
              (with_metadata
                 (JsMap.set (nanoid E) (new_document E filePath content type meta)
                            (metadata s)) s) fs1
            = (Success (new_document E filePath content type meta),
               with_metadata
                 (JsMap.set (nanoid E) (new_document E filePath content type meta)
                            (metadata s)) s, fs1)) as Hget.
  { intros fs1 Ha. unfold getDocument. simpl metadata. rewrite get_set_eq.
    rewrite docPath_with_metadata, Ha. done. }
  assert (access (docPath s (nanoid E))
            (JsMap.set (docPath s (nanoid E))
               (DocFile (new_document E filePath content type meta)) fs) = true)
    as Hslot by (unfold access, JsMap.has; by rewrite get_set_eq).
  destruct (write_ok E (metadataPath s)); (split; [done|]); apply Hget; [|done].
  unfold access. by apply has_set.
Qed.

Lemma find_by_path_set_new p id doc m :
  doc_path doc = p -> Spec.count_path p m = 0%nat ->
  find_by_path p (JsMap.set id doc m) = Some doc.
Proof.
  intros Hp. induction m as [|[k d] m IH]; simpl.
  - intros _. unfold find_by_path. simpl. by rewrite bool_decide_true.
  - rewrite count_path_cons.
    destruct (bool_decide (doc_path d = p)) eqn:Hd; [done|]. simpl. intros Hc.
    destruct (decide (id = k)).
    + unfold find_by_path. simpl. by rewrite bool_decide_true.
    + rewrite find_by_path_cons, Hd. by apply IH.
Qed.

(** X13.  After a successful [addDocument] for a path the store held no
    record of, [getDocumentByPath] on that path returns the new record
    and changes nothing. *)
Theorem addDocument_found_by_path E E' filePath content type meta s fs doc s1 fs1 :
  Spec.count_path filePath (metadata s) = 0%nat ->
  addDocument E filePath content type meta s fs = (Success doc, s1, fs1) ->
  getDocumentByPath E' filePath s1 fs1 = (Success doc, s1, fs1).
Proof.
  intros Hc Hadd. unfold addDocument in Hadd.
  destruct (writeFile E _ _ fs) as [fs'|] eqn:Hw1; [|done].
  destruct (saveMetadata E _ fs') as [fs2|] eqn:Hw2; [|done].
  injection Hadd as <- <- <-. unfold getDocumentByPath. simpl metadata.
  rewrite find_by_path_set_new by done.
  rewrite docPath_with_metadata. unfold saveMetadata in Hw2.
  by rewrite (access_writeFile _ _ _ _ _ _ Hw2 (access_written _ _ _ _ _ Hw1)).
Qed.

Lemma json_optional_get k k' v (fields : JsMap Json) :
  k <> k' -> JsMap.get k' (json_optional k v fields) = JsMap.get k' fields.
Proof. intros Hne. destruct v; simpl; [by apply get_set_ne | done]. Qed.

Lemma get_cons_eq {V} k (v : V) l : JsMap.get k ((k, v) :: l) = Some v.
Proof. simpl. by rewrite decide_True. Qed.

Lemma get_cons_ne {V} k k' (v : V) l :
  k <> k' -> JsMap.get k ((k', v) :: l) = JsMap.get k l.
Proof. intros Hne. simpl. by rewrite decide_False. Qed.

Local Opaque Js.lit.

(** Every document the store writes passes [validateDocument] when it is
    read back. *)
Lemma validateDocument_written d : validateDocument (json_of_document d) = true.
Proof.
  unfold validateDocument, json_of_document, json_field, json_of_metadata.
  repeat first [ rewrite get_cons_eq
               | rewrite get_cons_ne by (vm_compute; discriminate) ].
  repeat first [ rewrite json_optional_get by (vm_compute; discriminate)
               | rewrite get_set_eq
               | rewrite get_set_ne by (vm_compute; discriminate) ].
  reflexivity.
Qed.

Local Transparent Js.lit.

Lemma loadMetadata_fold (documents : list Document) m :
  fold_left
    (fun m doc =>
       if validateDocument (json_of_document doc)
       then JsMap.set (doc_id doc) doc m else m)
    documents m
  = fold_left (fun m doc => JsMap.set (doc_id doc) doc m) documents m.
Proof.
  revert m. induction documents as [|d l IH]; intros m; [done|].
  cbn [fold_left]. by rewrite validateDocument_written, IH.
Qed.


Lemma type_name_inj t1 t2 : type_name t1 = type_name t2 -> t1 = t2.
Proof. destruct t1, t2; vm_compute; congruence. Qed.




(** X16.  The two filters: [getDocumentsByType] returns the records of
    the type, [getDocumentsByTags] the records that carry at least one of
    the tags asked for, so none for an empty list of tags and never a
    record without tags; both in the order of the store. *)
Theorem getDocuments_filters type tags s d :
  (exists byType,
     getDocumentsByType type s = Success byType
     /\ byType `sublist_of` JsMap.values (metadata s)
     /\ (d ∈ byType <-> d ∈ JsMap.values (metadata s) /\ doc_type d = type))
  /\ (exists byTags,
        getDocumentsByTags tags s = Success byTags
        /\ byTags `sublist_of` JsMap.values (metadata s)
        /\ (d ∈ byTags <->
            d ∈ JsMap.values (metadata s)
            /\ exists tag docTags,
                 md_tags (doc_metadata d) = Some docTags
                 /\ tag ∈ tags /\ tag ∈ docTags)).
Proof.
  assert (forall (f : Document -> bool) l, List.filter f l `sublist_of` l) as Hsub.
  { intros f l. induction l as [|a l IH]; simpl; [done|].
    destruct (f a); [by apply sublist_skip | by apply sublist_cons]. }
  split; eexists; (split; [reflexivity|]); (split; [apply Hsub|]);
    rewrite list_elem_of_In, List.filter_In, <- list_elem_of_In;
    (apply and_iff_compat_l).
  - rewrite bool_decide_eq_true. split; [apply type_name_inj | by intros ->].
  - unfold has_any_tag. destruct (md_tags (doc_metadata d)) as [docTags|].
    + rewrite existsb_exists. split.
      * intros (tag & Hin & Hex). apply existsb_exists in Hex as (t' & Hin' & Heq).
        apply bool_decide_eq_true in Heq. subst t'.
        exists tag, docTags. by rewrite !list_elem_of_In.
      * intros (tag & docTags' & [= <-] & Hin & Hin').
        exists tag. split; [by apply list_elem_of_In|].
        apply existsb_exists. exists tag. split; [by apply list_elem_of_In|].
        by apply bool_decide_eq_true.
    + split; [done|]. by intros (? & ? & ? & _).
Qed.

Lemma byteLength_bounds_upto n (x : jsstring) :
  (length x <= n)%nat ->
  N.of_nat (length x) <= Js.byteLength x <= 3 * N.of_nat (length x).
Proof.
  revert x. induction n as [|n IH]; intros x Hn.
  - destruct x; simpl in *; lia.
  - destruct x as [|c x]; [simpl; lia|]. simpl in Hn.
    assert (N.of_nat (length x) <= Js.byteLength x <= 3 * N.of_nat (length x)) as Hx
      by (apply IH; lia).
    change (Js.byteLength (c :: x))
      with (if c <? 128 then 1 + Js.byteLength x
            else if c <? 2048 then 2 + Js.byteLength x
            else if Js.is_high_surrogate c then
              match x with
              | c' :: x' => if Js.is_low_surrogate c' then 4 + Js.byteLength x'
                            else 3 + Js.byteLength x
              | [] => 3
              end
            else 3 + Js.byteLength x).
    destruct (c <? 128); [simpl length; lia|].
    destruct (c <? 2048); [simpl length; lia|].
    destruct (Js.is_high_surrogate c); [|simpl length; lia].
    destruct x as [|c' x']; [simpl; lia|].
    destruct (Js.is_low_surrogate c'); [|simpl length in *; lia].
    assert (N.of_nat (length x') <= Js.byteLength x' <= 3 * N.of_nat (length x'))
      by (apply IH; simpl in Hn; lia).
    simpl length. lia.
Qed.

(** X17.  Without overrides of [size] and [charCount], the record
    [addDocument] returns has a [charCount], the length of the content,
    and a [size] between one and three times that count. *)
Theorem addDocument_size_bounds E filePath content type meta s fs doc s1 fs1 :
  addDocument E filePath content type meta s fs = (Success doc, s1, fs1) ->
  (forall o : PartialMetadata,
     meta = Some o -> pm_size o = None /\ pm_charCount o = None) ->
  md_charCount (doc_metadata doc) = Some (Z.of_nat (length content))
  /\ (Z.of_nat (length content) <= md_size (doc_metadata doc)
      <= 3 * Z.of_nat (length content))%Z.
Proof.
  intros Hadd Hmeta. unfold addDocument in Hadd.
  destruct (writeFile E _ _ fs) as [fs'|]; [|done].
  destruct (saveMetadata E _ fs'); [|done].
  injection Hadd as <- _ _.
  pose proof (byteLength_bounds_upto (length content) content (le_n _)) as Hb.
  destruct meta as [o|]; simpl.
  - destruct (Hmeta o eq_refl) as [-> ->]. simpl. split; [done | lia].
  - split; [done | lia].
Qed.

End MoreStoreFacts.

(** ** More on the reconciler *)

Section MoreWatcherFacts.
Context {P : Platform}.
Import DocumentStore FileWatcher.
Implicit Types (s : DocumentStore.t) (fs : JsMap (File P)) (m : JsMap Document).
Implicit Types (w : @World P).

Lemma count_set_other q k d m :
  doc_path d <> q ->
  (Spec.count_path q (JsMap.set k d m) <= Spec.count_path q m)%nat.
Proof.
  intros Hd. induction m as [|[k' d'] m IH]; simpl.
  - rewrite count_path_cons, bool_decide_false by done. simpl. lia.
  - destruct (decide (k = k')); rewrite !count_path_cons.
    + rewrite (bool_decide_false (doc_path d = q)) by done. lia.
    + lia.
Qed.

Lemma count_set_same q k d existing m :
  JsMap.get k m = Some existing -> doc_path d = doc_path existing ->
  Spec.count_path q (JsMap.set k d m) = Spec.count_path q m.
Proof.
  intros Hg Hp. induction m as [|[k' d'] m IH]; simpl in *; [done|].
  destruct (decide (k = k')); rewrite !count_path_cons.
  - injection Hg as ->. by rewrite Hp.
  - by rewrite IH.
Qed.

Lemma find_by_path_elem p m d :
  find_by_path p m = Some d -> exists k, (k, d) ∈ m.
Proof.
  induction m as [|[k d'] m IH]; [done|]. rewrite find_by_path_cons.
  destruct (bool_decide _).
  - intros [= ->]. exists k. left.
  - intros H. destruct (IH H) as [k' Hk']. exists k'. by right.
Qed.

Lemma get_of_elem {V} k (v : V) (m : JsMap V) : (k, v) ∈ m -> is_Some (JsMap.get k m).
Proof.
  induction m as [|[k' v'] m IH]; [by intros ?%elem_of_nil|].
  simpl. destruct (decide (k = k')); [by eexists|].
  intros [[=]|Hin]%elem_of_cons; [done | by apply IH].
Qed.

Lemma get_unique {V} k (v : V) (m : JsMap V) :
  Spec.unique_keys m -> (k, v) ∈ m -> JsMap.get k m = Some v.
Proof.
  unfold Spec.unique_keys. induction m as [|[k' v'] m IH]; [by intros _ ?%elem_of_nil|].
  simpl. intros [Hk' Hnd]%NoDup_cons [[= -> ->]|Hin]%elem_of_cons.
  - by rewrite decide_True.
  - rewrite decide_False; [by apply IH|]. intros ->. apply Hk'.
    apply list_elem_of_fmap. by exists (k', v).
Qed.

Lemma found_is_stored p s d :
  Spec.store_keyed s -> find_by_path p (metadata s) = Some d ->
  is_Some (JsMap.get (doc_id d) (metadata s)).
Proof.
  intros Hk Hf. destruct (find_by_path_elem _ _ _ Hf) as [k Hin].
  unfold Spec.store_keyed in Hk. rewrite Forall_forall in Hk.
  pose proof (Hk _ Hin) as Hid. simpl in Hid. subst k. by eapply get_of_elem.
Qed.

Lemma getDocumentByPath_count_le E p q s fs :
  (Spec.count_path q (metadata (getDocumentByPath E p s fs).1.2)
   <= Spec.count_path q (metadata s))%nat.
Proof.
  unfold getDocumentByPath. destruct (find_by_path p (metadata s)); [|done].
  destruct (access _ fs); [done|]. unfold evict.
  destruct (saveMetadata E _ fs); apply count_delete_le.
Qed.

Lemma addDocument_count_other E p q content type meta s fs :
  p <> q ->
  (Spec.count_path q (metadata (addDocument E p content type meta s fs).1.2)
   <= Spec.count_path q (metadata s))%nat.
Proof.
  intros Hne. unfold addDocument. destruct (writeFile E _ _ fs) as [fs1|]; [|done].
  destruct (saveMetadata E _ fs1); by apply count_set_other.
Qed.

Lemma handleFileAdded_count_other X E p q w :
  p <> q ->
  (Spec.count_path q (metadata (documentStore (handleFileAdded X E p w)))
   <= Spec.count_path q (metadata (documentStore w)))%nat.
Proof.
  intros Hne. unfold handleFileAdded. destruct (isSupported X p); simpl; [|done].
  pose proof (getDocumentByPath_count_le E p q (documentStore w) (disk w)) as H1.
  destruct (getDocumentByPath E p (documentStore w) (disk w)) as [[r st1] fs1].
  simpl in H1. destruct r; [done|].
  destruct (processFile X p) as [pf|]; [|done].
  pose proof (addDocument_count_other E p q (pf_content pf) (pf_type pf)
                (pf_metadata pf) st1 fs1 Hne) as H2.
  destruct (addDocument E p _ _ _ st1 fs1) as [[r2 st2] fs2]. simpl in H2.
  destruct r2 as [doc|]; simpl; [|lia].
  destruct (SearchIndex.addDocument E doc (searchIndex w) fs2) as [[? ?] ?].
  simpl. lia.
Qed.

Lemma handleFileAdded_keeps X E p w :
  Spec.store_keyed (documentStore w) -> Spec.paths_unique (documentStore w) ->
  Spec.store_keyed (documentStore (handleFileAdded X E p w))
  /\ Spec.paths_unique (documentStore (handleFileAdded X E p w)).
Proof.
  intros Hk Hu.
  destruct (handleFileAdded_invariant X E p w Hk (Hu p)) as [Hk' Hp].
  split; [done|]. intros q. destruct (decide (p = q)) as [<-|Hne]; [done|].
  pose proof (handleFileAdded_count_other X E p q w Hne). specialize (Hu q). lia.
Qed.

Lemma updateDocument_counts E id updates q s fs :
  pd_path updates = None ->
  Spec.count_path q (metadata (updateDocument E id updates s fs).1.2)
  = Spec.count_path q (metadata s).
Proof.
  intros Hp. unfold updateDocument.
  destruct (JsMap.get id (metadata s)) as [existing|] eqn:Hg; [|done].
  destruct (writeFile E _ _ fs) as [fs1|]; [|done].
  destruct (saveMetadata E _ fs1); simpl; eapply count_set_same; try exact Hg;
    by rewrite updated_document_path, Hp.
Qed.

Lemma deleteDocument_count_le E id q s fs :
  (Spec.count_path q (metadata (deleteDocument E id s fs).1.2)
   <= Spec.count_path q (metadata s))%nat.
Proof.
  unfold deleteDocument. destruct (JsMap.get id (metadata s)); [|done].
  destruct (saveMetadata E _ _); apply count_delete_le.
Qed.

Lemma handleFileChanged_keeps X E p w :
  Spec.store_keyed (documentStore w) -> Spec.paths_unique (documentStore w) ->
  Spec.store_keyed (documentStore (handleFileChanged X E p w))
  /\ Spec.paths_unique (documentStore (handleFileChanged X E p w)).
Proof.
  intros Hk Hu. unfold handleFileChanged. destruct (isSupported X p); simpl; [|done].
  pose proof (getDocumentByPath_cases E p (documentStore w) (disk w) Hk) as Hget.
  pose proof (fun q => getDocumentByPath_count_le E p q (documentStore w) (disk w))
    as Hle.
  destruct (getDocumentByPath E p (documentStore w) (disk w)) as [[r st1] fs1].
  simpl in Hle. destruct Hget as [Hk1 _].
  assert (Spec.paths_unique st1) as Hu1.
  { intros q. specialize (Hle q). specialize (Hu q). lia. }
  destruct r as [doc|e]; [|by apply handleFileAdded_keeps].
  destruct (processFile X p) as [pf|]; [|done].
  set (updates := {| pd_id := None; pd_title := None; pd_content := Some (pf_content pf);
                     pd_path := None; pd_type := None;
                     pd_metadata := Some (changed_metadata E doc (pf_metadata pf)) |}).
  pose proof (store_keyed_updateDocument (after_readings 1 E) (doc_id doc) updates
                st1 fs1 Hk1) as Hk2.
  pose proof (fun q => updateDocument_counts (after_readings 1 E) (doc_id doc) updates
                         q st1 fs1 eq_refl) as Hc2.
  destruct (updateDocument (after_readings 1 E) (doc_id doc) updates st1 fs1)
    as [[r2 st2] fs2].
  simpl in Hk2, Hc2.
  assert (Spec.paths_unique st2) as Hu2.
  { intros q. rewrite Hc2. apply Hu1. }
  destruct r2 as [updatedDoc|]; simpl; [|done].
  by destruct (SearchIndex.updateDocument E updatedDoc (searchIndex w) fs2)
    as [[? ?] ?].
Qed.

Lemma handleFileDeleted_keeps E p w :
  Spec.store_keyed (documentStore w) -> Spec.paths_unique (documentStore w) ->
  Spec.store_keyed (documentStore (handleFileDeleted E p w))
  /\ Spec.paths_unique (documentStore (handleFileDeleted E p w)).
Proof.
  intros Hk Hu. unfold handleFileDeleted.
  pose proof (getDocumentByPath_cases E p (documentStore w) (disk w) Hk) as Hget.
  pose proof (fun q => getDocumentByPath_count_le E p q (documentStore w) (disk w))
    as Hle.
  destruct (getDocumentByPath E p (documentStore w) (disk w)) as [[r st1] fs1].
  simpl in Hle. destruct Hget as [Hk1 _].
  assert (Spec.paths_unique st1) as Hu1.
  { intros q. specialize (Hle q). specialize (Hu q). lia. }
  destruct r as [doc|e]; [|done].
  pose proof (store_keyed_deleteDocument E (doc_id doc) st1 fs1 Hk1) as Hk2.
  pose proof (fun q => deleteDocument_count_le E (doc_id doc) q st1 fs1) as Hc2.
  destruct (deleteDocument E (doc_id doc) st1 fs1) as [[r2 st2] fs2].
  simpl in Hk2, Hc2.
  assert (Spec.paths_unique st2) as Hu2.
  { intros q. specialize (Hc2 q). specialize (Hu1 q). lia. }
  destruct r2; simpl; [|done].
  by destruct (SearchIndex.removeDocument E (doc_id doc) (searchIndex w) fs2)
    as [[? ?] ?].
Qed.

(** X18.  Path uniqueness under the reconciler: from a store that is
    keyed by ids and holds at most one record for every path, any
    sequence of [add], [change] and [unlink] events, whatever the
    processor and the environment answer, leads to such a store. *)
Theorem reconciler_keeps_paths_unique events w :
  Spec.store_keyed (documentStore w) -> Spec.paths_unique (documentStore w) ->
  Spec.store_keyed (documentStore (handle_all events w))
  /\ Spec.paths_unique (documentStore (handle_all events w)).
Proof.
  unfold handle_all. revert w.
  induction events as [|[[X E] ev] events IH]; intros w Hk Hu; [done|].
  simpl. apply IH; destruct ev as [p|p|p]; simpl.
  - by apply handleFileAdded_keeps.
  - by apply handleFileChanged_keeps.
  - by apply handleFileDeleted_keeps.
  - by apply handleFileAdded_keeps.
  - by apply handleFileChanged_keeps.
  - by apply handleFileDeleted_keeps.
Qed.

(** X19.  After the handler of a removed file, a store that was keyed by
    ids and held at most one record for the path holds none, and no live
    document is found for the path. *)
Theorem handleFileDeleted_removes E filePath w :
  Spec.store_keyed (documentStore w) ->
  (Spec.count_path filePath (metadata (documentStore w)) <= 1)%nat ->
  let w' := handleFileDeleted E filePath w in
  Spec.count_path filePath (metadata (documentStore w')) = 0%nat
  /\ Spec.live filePath (documentStore w') (disk w') = false.
Proof.
  intros Hk Hc w'.
  assert (Spec.count_path filePath (metadata (documentStore w')) = 0%nat) as H0.
  { unfold w', handleFileDeleted.
    pose proof (getDocumentByPath_cases E filePath (documentStore w) (disk w) Hk) as Hg.
    unfold getDocumentByPath in *. unfold Spec.live in Hg.
    destruct (find_by_path filePath (metadata (documentStore w))) as [d|] eqn:Hf.
    - destruct (access (docPath (documentStore w) (doc_id d)) (disk w)) eqn:Ha.
      + destruct (found_is_stored _ _ _ Hk Hf) as [d' Hd'].
        pose proof (count_delete_found filePath _ d Hk Hf) as Hlt.
        unfold deleteDocument. rewrite Hd'.
        destruct (saveMetadata E _ _); simpl.
        * destruct (SearchIndex.removeDocument E (doc_id d) (searchIndex w) _)
            as [[? ?] ?]. simpl. lia.
        * lia.
      + destruct (evict E (doc_id d) (documentStore w) (disk w)) as [[r st1] fs1].
        destruct Hg as [_ Hr]. destruct r; [by destruct Hr as (_ & _ & ?)|].
        simpl. by apply Hr.
    - simpl. by apply count_find_none. }
  split; [done|]. unfold Spec.live.
  destruct (find_by_path filePath (metadata (documentStore w'))) eqn:Hf; [|done].
  apply count_find_some in Hf. lia.
Qed.

Lemma count_zero_find_none p m :
  Spec.count_path p m = 0%nat -> find_by_path p m = None.
Proof.
  intros H0. destruct (find_by_path p m) eqn:Hf; [|done].
  apply count_find_some in Hf. lia.
Qed.

(** X20.  A change event on a path without live document (no record, or
    one record whose durable slot is gone) is handled as an add event,
    in a store keyed by ids with at most one record for the path. *)
Theorem handleFileChanged_as_added X E filePath w :
  Spec.store_keyed (documentStore w) ->
  (Spec.count_path filePath (metadata (documentStore w)) <= 1)%nat ->
  Spec.live filePath (documentStore w) (disk w) = false ->
  handleFileChanged X E filePath w = handleFileAdded X E filePath w.
Proof.
  intros Hk Hc Hl. unfold handleFileChanged.
  destruct (isSupported X filePath) eqn:Hs; simpl;
    [|unfold handleFileAdded; by rewrite Hs].
  pose proof (getDocumentByPath_cases E filePath (documentStore w) (disk w) Hk) as Hg.
  unfold handleFileAdded at 2. rewrite Hs. simpl.
  destruct (getDocumentByPath E filePath (documentStore w) (disk w))
    as [[r st1] fs1] eqn:Hr.
  destruct Hg as [_ Hg]. destruct r as [d|e].
  { destruct Hg as (_ & _ & Hl'). congruence. }
  destruct Hg as [_ H0]. specialize (H0 Hc). apply count_zero_find_none in H0.
  unfold handleFileAdded. rewrite Hs. simpl.
  unfold getDocumentByPath at 1. simpl. by rewrite H0.
Qed.

(** X27.  The handler of a removed file always drops the record the
    lookup by path found; it drops the index entry of that id only when
    the document was live and the manifest could be written.  Otherwise
    the index is left as it was, with an entry the store no longer
    has. *)
Theorem handleFileDeleted_index E filePath w doc :
  Spec.store_keyed (documentStore w) ->
  find_by_path filePath (metadata (documentStore w)) = Some doc ->
  let w' := handleFileDeleted E filePath w in
  JsMap.get (doc_id doc) (metadata (documentStore w')) = None
  /\ if access (docPath (documentStore w) (doc_id doc)) (disk w)
        && write_ok E (metadataPath (documentStore w))
     then JsMap.get (doc_id doc) (SearchIndex.documents (searchIndex w')) = None
     else searchIndex w' = searchIndex w.
Proof.
  intros Hk Hf w'. unfold w', handleFileDeleted, getDocumentByPath. rewrite Hf.
  destruct (access (docPath (documentStore w) (doc_id doc)) (disk w)) eqn:Ha.
  - destruct (found_is_stored _ _ _ Hk Hf) as [d' Hd'].
    unfold deleteDocument. rewrite Hd'. unfold saveMetadata, writeFile.
    change (metadataPath (with_metadata _ (documentStore w)))
      with (metadataPath (documentStore w)).
    destruct (write_ok E (metadataPath (documentStore w))); simpl.
    + pose proof (removeDocument_documents E (doc_id doc) (searchIndex w)
                    (JsMap.set (metadataPath (documentStore w))
                       (ManifestFile
                          (JsMap.values
                             (JsMap.delete (doc_id doc) (metadata (documentStore w)))))
                       (unlink_caught E (docPath (documentStore w) (doc_id doc))
                          (disk w)))) as Hd.
      destruct (SearchIndex.removeDocument E (doc_id doc) (searchIndex w) _)
        as [[r si3] fs3]. simpl in *. split; [apply get_delete_eq|].
      rewrite Hd. unfold JsMap.has.
      destruct (JsMap.get (doc_id doc) (SearchIndex.documents (searchIndex w)))
        eqn:Hg; simpl; [apply get_delete_eq | exact Hg].
    + split; [apply get_delete_eq | done].
  - unfold evict. destruct (saveMetadata E _ (disk w)); simpl;
      (split; [apply get_delete_eq | done]).
Qed.

Lemma found_is_get p s d :
  Spec.store_keyed s -> Spec.unique_keys (metadata s) ->
  find_by_path p (metadata s) = Some d ->
  JsMap.get (doc_id d) (metadata s) = Some d.
Proof.
  intros Hk Hu Hf. destruct (find_by_path_elem _ _ _ Hf) as [k Hin].
  unfold Spec.store_keyed in Hk. rewrite Forall_forall in Hk.
  pose proof (Hk _ Hin) as Hid. simpl in Hid. subst k. by apply get_unique.
Qed.

(** X21.  A change event on a path with a live document, when the
    extraction and the write of the durable slot succeed, replaces the
    content of that document and refreshes [updatedAt]; id, path, title
    and type stay.  [size] and [wordCount] are those the extractor
    gives, or else the old ones: they are not computed from the new
    content.  When the manifest is written too, the index entry of the
    id is the one built from the updated record. *)
Theorem handleFileChanged_updates X E filePath w doc pf :
  Spec.store_keyed (documentStore w) ->
  Spec.unique_keys (metadata (documentStore w)) ->
  isSupported X filePath = true ->
  find_by_path filePath (metadata (documentStore w)) = Some doc ->
  access (docPath (documentStore w) (doc_id doc)) (disk w) = true ->
  processFile X filePath = Success pf ->
  write_ok E (docPath (documentStore w) (doc_id doc)) = true ->
  let w' := handleFileChanged X E filePath w in
  exists updated,
    JsMap.get (doc_id doc) (metadata (documentStore w')) = Some updated
    /\ doc_id updated = doc_id doc
    /\ doc_path updated = doc_path doc
    /\ doc_title updated = doc_title doc
    /\ doc_type updated = doc_type doc
    /\ doc_content updated = pf_content pf
    /\ md_updatedAt (doc_metadata updated) = clock E 1
    /\ md_size (doc_metadata updated)
       = md_size (spread_metadata_opt (doc_metadata doc) (pf_metadata pf))
    /\ md_wordCount (doc_metadata updated)
       = md_wordCount (spread_metadata_opt (doc_metadata doc) (pf_metadata pf))
    /\ (write_ok E (metadataPath (documentStore w)) = true ->
        JsMap.get (doc_id doc) (SearchIndex.documents (searchIndex w'))
        = Some (SearchIndex.entry_of updated)).
Proof.
  intros Hk Hu Hs Hf Ha Hp Hw w'.
  pose proof (found_is_get _ _ _ Hk Hu Hf) as Hg.
  set (updated :=
         updated_document (after_readings 1 E) doc
           {| pd_id := None; pd_title := None; pd_content := Some (pf_content pf);
              pd_path := None; pd_type := None;
              pd_metadata := Some (changed_metadata E doc (pf_metadata pf)) |}).
  set (st1 := with_metadata (JsMap.set (doc_id doc) updated (metadata (documentStore w)))
                (documentStore w)).
  set (fs1 := JsMap.set (docPath (documentStore w) (doc_id doc)) (DocFile updated)
                (disk w)).
  assert (w' = if write_ok E (metadataPath (documentStore w))
               then
                 let '(_, si3, fs3) :=
                   SearchIndex.addDocument E updated (searchIndex w)
                     (JsMap.set (metadataPath (documentStore w))
                        (ManifestFile (JsMap.values (metadata st1))) fs1) in
                 {| documentStore := st1; searchIndex := si3; disk := fs3 |}
               else {| documentStore := st1; searchIndex := searchIndex w;
                       disk := fs1 |}) as Hw'.
  { unfold w', handleFileChanged, getDocumentByPath. rewrite Hs, Hf, Ha, Hp. simpl.
    unfold updateDocument. rewrite Hg. unfold saveMetadata, writeFile.
    change (write_ok (after_readings 1 E)) with (write_ok E). rewrite Hw.
    change (metadataPath (with_metadata _ (documentStore w)))
      with (metadataPath (documentStore w)).
    by destruct (write_ok E (metadataPath (documentStore w))). }
  clearbody w'. subst w'.
  exists updated.
  assert (md_wordCount (doc_metadata updated)
          = md_wordCount (spread_metadata_opt (doc_metadata doc) (pf_metadata pf)))
    as Hwc.
  { unfold updated. simpl.
    destruct (pf_metadata pf) as [o|]; simpl; [destruct (pm_wordCount o)|];
      by destruct (md_wordCount (doc_metadata doc)). }
  destruct (write_ok E (metadataPath (documentStore w))).
  - pose proof (addDocument_documents E updated (searchIndex w)
                  (JsMap.set (metadataPath (documentStore w))
                     (ManifestFile (JsMap.values (metadata st1))) fs1)) as Hidx.
    destruct (SearchIndex.addDocument E updated (searchIndex w) _) as [[r3 si3] fs3].
    simpl in Hidx. simpl documentStore. simpl searchIndex.
    split; [apply get_set_eq|]. repeat (split; [done|]).
    intros _. rewrite Hidx. apply get_set_eq.
  - simpl documentStore. split; [apply get_set_eq|]. repeat (split; [done|]). done.
Qed.

End MoreWatcherFacts.

(** ** The start-up of the server *)

Section ServerFacts.
Context {P : Platform}.
Import DocumentStore FileWatcher.
Implicit Types (s : DocumentStore.t) (fs : JsMap (File P)) (m : JsMap Document).
Implicit Types (w : @World P).

(** In a map with unique keys that are the ids of its records, the last
    value with an id is the value stored under it. *)
Lemma last_with_id_values id m :
  Forall (fun kv => doc_id kv.2 = kv.1) m -> Spec.unique_keys m ->
  Spec.last_with_id id (JsMap.values m) = JsMap.get id m.
Proof.
  intros Hk Hu.
  pose proof (get_fold_set doc_id (fun d : Document => d) (JsMap.values m) [] id) as H.
  cbv beta in H. rewrite (fold_set_values doc_id m []) in H; [|done|done].
  simpl in H. rewrite H. unfold Spec.last_with_id.
  by destruct (List.find _ (rev (JsMap.values m))).
Qed.

Lemma loadMetadata_keyed s fs :
  Spec.store_keyed s -> Spec.unique_keys (metadata s) ->
  Spec.store_keyed (loadMetadata s fs)
  /\ Spec.unique_keys (metadata (loadMetadata s fs)).
Proof.
  intros Hk Hu. unfold loadMetadata.
  destruct (JsMap.get (metadataPath s) fs) as [[| documents | |]|];
    try (split; [constructor | apply NoDup_nil_2]).
  simpl. rewrite loadMetadata_fold. split.
  - by apply (Forall_fold_set _ doc_id (fun d : Document => d)).
  - by apply (unique_keys_fold_set doc_id (fun d : Document => d)).
Qed.

(** X28.  The start-up fails only when a directory cannot be made.
    Otherwise the store is the one loaded from the manifest, and the
    index is synchronized with it whatever the index file held: the
    entry of an id is the one built from the stored record of that id,
    there is no entry for an id without record, and there is an index
    object exactly when there are entries. *)
Theorem initialize_syncs mkdir_ok E w id :
  Spec.store_keyed (documentStore w) ->
  Spec.unique_keys (metadata (documentStore w)) ->
  match Server.initialize mkdir_ok E w with
  | None => mkdir_ok = false
  | Some w' =>
      mkdir_ok = true
      /\ documentStore w' = loadMetadata (documentStore w) (disk w)
      /\ JsMap.get id (SearchIndex.documents (searchIndex w'))
         = SearchIndex.entry_of <$> JsMap.get id (metadata (documentStore w'))
      /\ Spec.index_tracks (searchIndex w')
  end.
Proof.
  intros Hk Hu. unfold Server.initialize, initialize.
  destruct mkdir_ok; [|done].
  unfold SearchIndex.initialize, getAllDocuments.
  destruct (loadMetadata_keyed _ (disk w) Hk Hu) as [Hk' Hu'].
  pose proof (rebuildFromDocuments_documents E
    (JsMap.values (metadata (loadMetadata (documentStore w) (disk w))))
    (SearchIndex.loadIndex (searchIndex w) (disk w)) (disk w)) as Hd.
  pose proof (rebuildFromDocuments_state E
    (JsMap.values (metadata (loadMetadata (documentStore w) (disk w))))
    (SearchIndex.loadIndex (searchIndex w) (disk w)) (disk w)) as Hs.
  destruct (SearchIndex.rebuildFromDocuments E _ _ (disk w)) as [[r si'] fs'].
  simpl in *. split; [done|]. split; [done|]. split.
  - rewrite Hd, (get_fold_set doc_id SearchIndex.entry_of).
    pose proof (last_with_id_values id _ Hk' Hu') as Hl.
    unfold Spec.last_with_id in Hl. rewrite Hl.
    by destruct (JsMap.get id _).
  - rewrite Hs. apply rebuildIndex_tracks.
Qed.

End ServerFacts.

(** C1, as stated, fails: a payload with a [path] entry moves the
    document. *)
Lemma updateDocument_path_counterexample :
  exists returned s' fs',
    DocumentStore.updateDocument (Toy.env (Js.lit "x")) (Js.lit "a") Toy.move
      Toy.store_a Toy.disk_a
    = (Success returned, s', fs')
    /\ JsMap.get (Js.lit "a") (DocumentStore.metadata s') = Some returned
    /\ doc_path Toy.doc_a = Js.lit "/docs/a.txt"
    /\ doc_path returned = Js.lit "/docs/b.txt".
Proof. do 3 eexists. split; [vm_compute; reflexivity|]. done. Qed.

Lemma updateDocument_id_path_witness :
  JsMap.get (Js.lit "a") (DocumentStore.metadata Toy.store_a) = Some Toy.doc_a
  /\ let '(r, s', _) :=
       DocumentStore.updateDocument (Toy.env (Js.lit "x")) (Js.lit "a") Toy.retitle
         Toy.store_a Toy.disk_a in
     exists stored,
       JsMap.get (Js.lit "a") (DocumentStore.metadata s') = Some stored
       /\ doc_id stored = doc_id Toy.doc_a
       /\ (pd_path Toy.retitle = None -> doc_path stored = doc_path Toy.doc_a)
       /\ forall returned, r = Success returned ->
            returned = stored
            /\ doc_path returned
               = override (pd_path Toy.retitle) (doc_path Toy.doc_a).
Proof.
  split; [reflexivity|].
  apply (updateDocument_id_path (P := Toy.platform)). reflexivity.
Defined.

(** C2, as stated, fails: an override of [size] is what is stored. *)
Lemma addDocument_size_counterexample :
  exists doc s1 fs1 got,
    DocumentStore.addDocument (Toy.env (Js.lit "a")) (Js.lit "/docs/a.txt")
      (Js.lit "hello") txt
      (Some {| pm_createdAt := None; pm_updatedAt := None; pm_size := Some 999%Z;
               pm_tags := None; pm_summary := None; pm_wordCount := None;
               pm_charCount := None; pm_extra := [] |})
      Toy.store (@nil (jsstring * File Toy.platform))
    = (Success doc, s1, fs1)
    /\ (DocumentStore.getDocument (Toy.env (Js.lit "b")) (doc_id doc) s1 fs1).1.1
       = Success got
    /\ md_size (doc_metadata got) = 999%Z
    /\ Z.of_N (Js.byteLength (Js.lit "hello")) = 5%Z.
Proof.
  do 4 eexists. split; [vm_compute; reflexivity|].
  split; [vm_compute; reflexivity|]. done.
Qed.

Lemma addDocument_getDocument_witness :
  Toy.added_a = (Success Toy.doc_a, Toy.added_a.1.2, Toy.added_a.2)
  /\ exists got,
      DocumentStore.getDocument (Toy.env (Js.lit "b")) (doc_id Toy.doc_a)
        Toy.added_a.1.2 Toy.added_a.2
      = (Success got, Toy.added_a.1.2, Toy.added_a.2)
      /\ md_size (doc_metadata got) = Z.of_N (Js.byteLength (Js.lit "hello world"))
      /\ md_wordCount (doc_metadata got)
         = Some (Z.of_nat (Spec.word_count (Js.lit "hello world")))
      /\ (clock (Toy.env (Js.lit "a")) 0 = clock (Toy.env (Js.lit "a")) 1 ->
          md_createdAt (doc_metadata got) = md_updatedAt (doc_metadata got)).
Proof.
  split; [reflexivity|].
  apply (addDocument_getDocument (Toy.env (Js.lit "a")) (Toy.env (Js.lit "b"))
           (Js.lit "/docs/a.txt") (Js.lit "hello world") txt None Toy.store []
           Toy.doc_a).
  - reflexivity.
  - intros m [=].
Defined.

(** C3 at a failing input: with the tag [project] and no title given,
    the document added from [/docs/report.txt] is titled [project], not
    [report.txt]. *)
Lemma addDocument_title_first_tag :
  exists doc s1 fs1,
    DocumentStore.addDocument (Toy.env (Js.lit "a")) (Js.lit "/docs/report.txt")
      (Js.lit "hello") txt
      (Some {| pm_createdAt := None; pm_updatedAt := None; pm_size := None;
               pm_tags := Some [Js.lit "project"]; pm_summary := None;
               pm_wordCount := None; pm_charCount := None; pm_extra := [] |})
      Toy.store (@nil (jsstring * File Toy.platform))
    = (Success doc, s1, fs1)
    /\ doc_title doc = Js.lit "project"
    /\ Js.basename (Js.lit "/docs/report.txt") = Js.lit "report.txt".
Proof. do 3 eexists. split; [vm_compute; reflexivity|]. done. Qed.


(** C4, as stated, fails: a content of 10,001 characters gives an entry
    of 10,003. *)
Lemma index_entry_cap_counterexample :
  N.of_nat (length (doc_content Toy.doc_long)) = 10001
  /\ (fun e => N.of_nat (length (ie_content e)))
       <$> JsMap.get (Js.lit "a")
             (SearchIndex.documents
                (SearchIndex.addDocument (Toy.env (Js.lit "x")) Toy.doc_long
                   Toy.searchIndex []).1.2)
     = Some 10003.
Proof. split; vm_compute; reflexivity. Qed.

(** C6, as stated, fails: on a store that already holds two records for
    the path, both runs skip and both records stay. *)
Lemma handleFileAdded_twice_counterexample :
  let X := Toy.processor (Js.lit "hello") in
  let p := Js.lit "/docs/a.txt" in
  let w2 :=
    FileWatcher.handleFileAdded X (Toy.env (Js.lit "d")) p
      (FileWatcher.handleFileAdded X (Toy.env (Js.lit "c")) p Toy.world_dup) in
  Spec.live p (FileWatcher.documentStore w2) (FileWatcher.disk w2) = true
  /\ Spec.count_path p (DocumentStore.metadata (FileWatcher.documentStore w2)) = 2%nat.
Proof. split; vm_compute; reflexivity. Qed.

Lemma handleFileAdded_twice_witness :
  let X := Toy.processor (Js.lit "hello") in
  let p := Js.lit "/docs/a.txt" in
  let w1 := FileWatcher.handleFileAdded X (Toy.env (Js.lit "a")) p Toy.world_empty in
  let w2 := FileWatcher.handleFileAdded X (Toy.env (Js.lit "b")) p w1 in
  Spec.store_keyed (FileWatcher.documentStore Toy.world_empty)
  /\ (Spec.count_path p
        (DocumentStore.metadata (FileWatcher.documentStore Toy.world_empty)) <= 1)%nat
  /\ Spec.live p (FileWatcher.documentStore w2) (FileWatcher.disk w2) = true
  /\ Spec.count_path p (DocumentStore.metadata (FileWatcher.documentStore w2)) = 1%nat
  /\ (Spec.live p (FileWatcher.documentStore w1) (FileWatcher.disk w1) = true ->
      w2 = w1).
Proof.
  intros X p w1 w2.
  assert (Hk : Spec.store_keyed (FileWatcher.documentStore Toy.world_empty))
    by constructor.
  assert (Hc : (Spec.count_path p
                  (DocumentStore.metadata (FileWatcher.documentStore Toy.world_empty))
                <= 1)%nat) by (vm_compute; lia).
  assert (Hl : Spec.live p (FileWatcher.documentStore w2) (FileWatcher.disk w2) = true)
    by (vm_compute; reflexivity).
  split; [exact Hk|]. split; [exact Hc|]. split; [exact Hl|].
  exact (handleFileAdded_twice X (Toy.env (Js.lit "a")) X (Toy.env (Js.lit "b")) p
           Toy.world_empty Hk Hc Hl).
Defined.

Lemma search_blank_or_no_index_witness :
  (Spec.blank (Js.lit "   ") = true \/ SearchIndex.index Toy.indexed_a.1.2 = None)
  /\ SearchIndex.search Toy.indexed_a.1.2 (Js.lit "   ") 10 = (Success [], []).
Proof.
  assert (H : Spec.blank (Js.lit "   ") = true
              \/ SearchIndex.index Toy.indexed_a.1.2 = None)
    by (left; reflexivity).
  split; [exact H|].
  exact (search_blank_or_no_index Toy.indexed_a.1.2 (Js.lit "   ") 10 H).
Defined.

(** After [doc_a] was indexed and saved, removing it leaves the saved
    file listing its entry while the index in memory is gone. *)
Lemma removeDocument_last_witness :
  let s := Toy.indexed_a.1.2 in
  let fs := Toy.indexed_a.2 in
  JsMap.has (Js.lit "a") (SearchIndex.documents s) = true
  /\ JsMap.delete (Js.lit "a") (SearchIndex.documents s) = []
  /\ JsMap.get (SearchIndex.indexPath s) fs
     = Some (IndexFile (P := Toy.platform)
               [SearchIndex.lunr_doc (SearchIndex.entry_of Toy.doc_a)]
               [SearchIndex.entry_of Toy.doc_a])
  /\ SearchIndex.removeDocument (Toy.env (Js.lit "y")) (Js.lit "a") s fs
     = (Success tt, SearchIndex.with_index None (SearchIndex.with_documents [] s), fs)
  /\ SearchIndex.saveIndex (Toy.env (Js.lit "y"))
       (SearchIndex.with_index None (SearchIndex.with_documents [] s)) fs
     = (Returned tt, fs).
Proof.
  intros s fs.
  assert (H1 : JsMap.has (Js.lit "a") (SearchIndex.documents s) = true)
    by (vm_compute; reflexivity).
  assert (H2 : JsMap.delete (Js.lit "a") (SearchIndex.documents s) = [])
    by (vm_compute; reflexivity).
  split; [exact H1|]. split; [exact H2|]. split; [vm_compute; reflexivity|].
  exact (removeDocument_last (Toy.env (Js.lit "y")) (Js.lit "a") s fs H1 H2).
Defined.

(** The index loaded from [Toy.disk_fox] matches two documents on
    [fox]; with [limit = 2] the search returns one result. *)
Lemma search_results_known_witness :
  Spec.index_keyed Toy.loaded_fox
  /\ (SearchIndex.search Toy.loaded_fox (Js.lit "fox") 2).1 = Success Toy.results_fox
  /\ lunr_search Toy.platform
       [SearchIndex.lunr_doc Toy.fox_b; SearchIndex.lunr_doc Toy.fox_a]
       (SearchIndex.cleanQuery (Js.lit "fox"))
     = Some Toy.hits_fox
  /\ Forall (fun r => JsMap.has (res_id r) (SearchIndex.documents Toy.loaded_fox) = true)
            Toy.results_fox
  /\ (Z.of_nat (length Toy.results_fox) < 2)%Z
  /\ (2 <= Z.of_nat (length Toy.hits_fox))%Z
  /\ map res_id Toy.results_fox = [Js.lit "a"].
Proof.
  assert (Hk : Spec.index_keyed Toy.loaded_fox) by apply index_keyed_loadIndex.
  assert (Hs : (SearchIndex.search Toy.loaded_fox (Js.lit "fox") 2).1
               = Success Toy.results_fox) by (vm_compute; reflexivity).
  assert (Hh : lunr_search Toy.platform
                 [SearchIndex.lunr_doc Toy.fox_b; SearchIndex.lunr_doc Toy.fox_a]
                 (SearchIndex.cleanQuery (Js.lit "fox"))
               = Some Toy.hits_fox) by (vm_compute; reflexivity).
  destruct (search_results_known Toy.loaded_fox (Js.lit "fox") 2 Toy.results_fox Hk Hs)
    as [Hall Hcut].
  split; [exact Hk|]. split; [exact Hs|]. split; [exact Hh|]. split; [exact Hall|].
  split; [|split; [vm_compute; discriminate | vm_compute; reflexivity]].
  assert (Hq : SearchIndex.cleanQuery (Js.lit "fox") <> [])
    by (vm_compute; discriminate).
  destruct (Hcut [SearchIndex.lunr_doc Toy.fox_b; SearchIndex.lunr_doc Toy.fox_a]
              Toy.hits_fox eq_refl eq_refl Hq Hh) as [_ Hlt].
  apply Hlt.
  - apply Exists_cons_hd. reflexivity.
  - vm_compute. split; discriminate.
Defined.

(** ** The added properties at concrete inputs *)

Lemma index_tracks_entries_witness :
  Spec.index_tracks Toy.searchIndex
  /\ Spec.index_tracks Toy.indexed_a.1.2
  /\ Spec.index_tracks
       (SearchIndex.removeDocument (Toy.env (Js.lit "x")) (Js.lit "a")
          Toy.searchIndex []).1.2.
Proof.
  assert (H : Spec.index_tracks Toy.searchIndex) by (split; reflexivity).
  destruct (index_tracks_entries (Toy.env (Js.lit "x")) Toy.searchIndex [] Toy.doc_a
              (Js.lit "a") [Toy.doc_a] H) as (H1 & _ & H3 & _).
  split; [exact H|]. split; [exact H1 | exact H3].
Defined.

Lemma index_save_load_witness :
  Spec.index_keyed Toy.searchIndex
  /\ Spec.unique_keys (SearchIndex.documents Toy.searchIndex)
  /\ Toy.indexed_a.1.1 = Success tt
  /\ SearchIndex.loadIndex Toy.indexed_a.1.2 Toy.indexed_a.2 = Toy.indexed_a.1.2.
Proof.
  assert (H1 : Spec.index_keyed Toy.searchIndex) by constructor.
  assert (H2 : Spec.unique_keys (SearchIndex.documents Toy.searchIndex))
    by constructor.
  assert (H3 : Toy.indexed_a.1.1 = Success tt) by (vm_compute; reflexivity).
  split; [exact H1|]. split; [exact H2|]. split; [exact H3|].
  exact (index_save_load (Toy.env (Js.lit "x")) Toy.doc_a Toy.searchIndex [] H1 H2 H3).
Defined.

Lemma removed_never_found_witness :
  Spec.index_keyed Toy.indexed_ab.1.2
  /\ (SearchIndex.search
        (SearchIndex.removeDocument (Toy.env (Js.lit "x")) (Js.lit "a")
           Toy.indexed_ab.1.2 Toy.indexed_ab.2).1.2
        (Js.lit "hello") 10).1
     = Success Toy.results_hello_without_a
  /\ map res_id Toy.results_hello_without_a = [Js.lit "b"]
  /\ Forall (fun r => res_id r <> Js.lit "a") Toy.results_hello_without_a.
Proof.
  assert (H1 : Spec.index_keyed Toy.indexed_ab.1.2).
  { apply index_keyed_addDocument, index_keyed_addDocument. constructor. }
  assert (H2 : (SearchIndex.search
                  (SearchIndex.removeDocument (Toy.env (Js.lit "x")) (Js.lit "a")
                     Toy.indexed_ab.1.2 Toy.indexed_ab.2).1.2
                  (Js.lit "hello") 10).1
               = Success Toy.results_hello_without_a) by (vm_compute; reflexivity).
  split; [exact H1|]. split; [exact H2|]. split; [vm_compute; reflexivity|].
  exact (removed_never_found (Toy.env (Js.lit "x")) (Js.lit "a") Toy.indexed_ab.1.2
           Toy.indexed_ab.2 (Js.lit "hello") 10 Toy.results_hello_without_a H1 H2).
Defined.

Lemma search_at_most_limit_witness :
  (0 <= 2)%Z
  /\ (SearchIndex.search Toy.loaded_fox (Js.lit "fox") 2).1 = Success Toy.results_fox
  /\ (Z.of_nat (length Toy.results_fox) <= 2)%Z.
Proof.
  assert (H1 : (0 <= 2)%Z) by lia.
  assert (H2 : (SearchIndex.search Toy.loaded_fox (Js.lit "fox") 2).1
               = Success Toy.results_fox) by (vm_compute; reflexivity).
  split; [exact H1|]. split; [exact H2|].
  exact (search_at_most_limit Toy.loaded_fox (Js.lit "fox") 2 Toy.results_fox H1 H2).
Defined.

Lemma search_follows_primitive_witness :
  Spec.index_keyed Toy.indexed_ab.1.2
  /\ SearchIndex.index Toy.indexed_ab.1.2 = Some Toy.index_ab
  /\ lunr_search Toy.platform Toy.index_ab (SearchIndex.cleanQuery (Js.lit "hello"))
     = Some Toy.hits_hello
  /\ exists results,
       SearchIndex.search Toy.indexed_ab.1.2 (Js.lit "hello") 1
       = (Success results, [SearchIndex.cleanQuery (Js.lit "hello")])
       /\ map res_id results = map fst (Js.slice0 1 Toy.hits_hello)
       /\ map res_score results = map snd (Js.slice0 1 Toy.hits_hello).
Proof.
  assert (H1 : Spec.index_keyed Toy.indexed_ab.1.2).
  { apply index_keyed_addDocument, index_keyed_addDocument. constructor. }
  assert (H2 : SearchIndex.index Toy.indexed_ab.1.2 = Some Toy.index_ab)
    by (vm_compute; reflexivity).
  assert (H3 : Spec.blank (Js.lit "hello") = false) by reflexivity.
  assert (H4 : SearchIndex.cleanQuery (Js.lit "hello") <> [])
    by (vm_compute; discriminate).
  assert (H5 : lunr_search Toy.platform Toy.index_ab
                 (SearchIndex.cleanQuery (Js.lit "hello")) = Some Toy.hits_hello)
    by (vm_compute; reflexivity).
  assert (H6 : Forall (fun h : jsstring * nat =>
                         JsMap.has h.1 (SearchIndex.documents Toy.indexed_ab.1.2) = true)
                      Toy.hits_hello)
    by (repeat constructor).
  split; [exact H1|]. split; [exact H2|]. split; [exact H5|].
  exact (search_follows_primitive Toy.indexed_ab.1.2 (Js.lit "hello") 1 Toy.index_ab
           Toy.hits_hello H1 H2 H3 H4 H5 H6).
Defined.

Lemma clearIndex_clears_witness :
  unlink_ok (Toy.env (Js.lit "x")) (SearchIndex.indexPath Toy.indexed_a.1.2) = true
  /\ let '(r, s', fs') :=
       SearchIndex.clearIndex (Toy.env (Js.lit "x")) Toy.indexed_a.1.2 Toy.indexed_a.2 in
     r = Success tt
     /\ SearchIndex.loadIndex s' fs' = s'
     /\ SearchIndex.search s' (Js.lit "hello") 10 = (Success [], []).
Proof.
  split; [reflexivity|].
  exact (clearIndex_clears (Toy.env (Js.lit "x")) Toy.indexed_a.1.2 Toy.indexed_a.2
           (Js.lit "hello") 10 eq_refl).
Defined.

Lemma getDocument_evicts_witness :
  JsMap.get (Js.lit "a") (DocumentStore.metadata Toy.store_a) = Some Toy.doc_a
  /\ access (DocumentStore.docPath Toy.store_a (Js.lit "a"))
       (@nil (jsstring * File Toy.platform)) = false
  /\ let '(r, s', fs') :=
       DocumentStore.getDocument (Toy.env (Js.lit "x")) (Js.lit "a") Toy.store_a
         (@nil (jsstring * File Toy.platform)) in
     r = Failure (DocumentFileMissing (Js.lit "a"))
     /\ DocumentStore.getDocument (Toy.env (Js.lit "y")) (Js.lit "a") s' fs'
        = (Failure (DocumentNotFound (Js.lit "a")), s', fs').
Proof.
  split; [reflexivity|]. split; [reflexivity|].
  destruct (getDocument_evicts (P := Toy.platform) (Toy.env (Js.lit "x"))
              (Toy.env (Js.lit "y")) (Js.lit "a") (Js.lit "b") Toy.store_a []
              Toy.doc_a eq_refl eq_refl) as (H1 & H2 & _).
  split; [exact H1 | exact H2].
Defined.

Lemma addDocument_found_by_path_witness :
  Spec.count_path Toy.path_a (DocumentStore.metadata Toy.store) = 0%nat
  /\ Toy.added_a = (Success Toy.doc_a, Toy.added_a.1.2, Toy.added_a.2)
  /\ DocumentStore.getDocumentByPath (Toy.env (Js.lit "y")) Toy.path_a
       Toy.added_a.1.2 Toy.added_a.2
     = (Success Toy.doc_a, Toy.added_a.1.2, Toy.added_a.2).
Proof.
  split; [reflexivity|]. split; [reflexivity|].
  exact (addDocument_found_by_path (Toy.env (Js.lit "a")) (Toy.env (Js.lit "y"))
           Toy.path_a (Js.lit "hello world") txt None Toy.store [] Toy.doc_a
           Toy.added_a.1.2 Toy.added_a.2 eq_refl eq_refl).
Defined.


Lemma addDocument_size_bounds_witness :
  Toy.added_a = (Success Toy.doc_a, Toy.added_a.1.2, Toy.added_a.2)
  /\ md_charCount (doc_metadata Toy.doc_a) = Some 11%Z
  /\ (11 <= md_size (doc_metadata Toy.doc_a) <= 33)%Z.
Proof.
  split; [reflexivity|].
  exact (addDocument_size_bounds (Toy.env (Js.lit "a")) Toy.path_a
           (Js.lit "hello world") txt None Toy.store [] Toy.doc_a
           Toy.added_a.1.2 Toy.added_a.2 eq_refl
           (fun o (H : None = Some o) => match H with end)).
Defined.

Lemma reconciler_keeps_paths_unique_witness :
  let events :=
    [(Toy.processor (Js.lit "hello"), Toy.env (Js.lit "a"), FileWatcher.added Toy.path_a);
     (Toy.processor (Js.lit "hello you"), Toy.env (Js.lit "b"),
      FileWatcher.changed Toy.path_a);
     (Toy.processor (Js.lit "hello"), Toy.env (Js.lit "c"),
      FileWatcher.added (Js.lit "/docs/b.txt"))] in
  Spec.store_keyed (FileWatcher.documentStore Toy.world_empty)
  /\ Spec.paths_unique (FileWatcher.documentStore Toy.world_empty)
  /\ Spec.store_keyed
       (FileWatcher.documentStore (FileWatcher.handle_all events Toy.world_empty))
  /\ Spec.paths_unique
       (FileWatcher.documentStore (FileWatcher.handle_all events Toy.world_empty))
  /\ map fst (DocumentStore.metadata
                (FileWatcher.documentStore
                   (FileWatcher.handle_all events Toy.world_empty)))
     = [Js.lit "a"; Js.lit "c"].
Proof.
  intros events.
  assert (H1 : Spec.store_keyed (FileWatcher.documentStore Toy.world_empty))
    by constructor.
  assert (H2 : Spec.paths_unique (FileWatcher.documentStore Toy.world_empty))
    by (intros q; vm_compute; lia).
  destruct (reconciler_keeps_paths_unique events Toy.world_empty H1 H2) as [H3 H4].
  split; [exact H1|]. split; [exact H2|]. split; [exact H3|]. split; [exact H4|].
  vm_compute. reflexivity.
Defined.

Lemma handleFileDeleted_removes_witness :
  Spec.store_keyed (FileWatcher.documentStore Toy.world_a)
  /\ (Spec.count_path Toy.path_a
        (DocumentStore.metadata (FileWatcher.documentStore Toy.world_a)) <= 1)%nat
  /\ let w' :=
       FileWatcher.handleFileDeleted (Toy.env (Js.lit "x")) Toy.path_a Toy.world_a in
     Spec.count_path Toy.path_a
       (DocumentStore.metadata (FileWatcher.documentStore w')) = 0%nat
     /\ Spec.live Toy.path_a (FileWatcher.documentStore w') (FileWatcher.disk w')
        = false.
Proof.
  assert (H1 : Spec.store_keyed (FileWatcher.documentStore Toy.world_a))
    by (repeat constructor).
  assert (H2 : (Spec.count_path Toy.path_a
                  (DocumentStore.metadata (FileWatcher.documentStore Toy.world_a))
                <= 1)%nat) by (vm_compute; lia).
  split; [exact H1|]. split; [exact H2|].
  exact (handleFileDeleted_removes (Toy.env (Js.lit "x")) Toy.path_a Toy.world_a H1 H2).
Defined.

Lemma handleFileChanged_as_added_witness :
  Spec.store_keyed (FileWatcher.documentStore Toy.world_stale)
  /\ (Spec.count_path Toy.path_a
        (DocumentStore.metadata (FileWatcher.documentStore Toy.world_stale)) <= 1)%nat
  /\ Spec.live Toy.path_a (FileWatcher.documentStore Toy.world_stale)
       (FileWatcher.disk Toy.world_stale) = false
  /\ FileWatcher.handleFileChanged (Toy.processor (Js.lit "hello"))
       (Toy.env (Js.lit "b")) Toy.path_a Toy.world_stale
     = FileWatcher.handleFileAdded (Toy.processor (Js.lit "hello"))
         (Toy.env (Js.lit "b")) Toy.path_a Toy.world_stale.
Proof.
  assert (H1 : Spec.store_keyed (FileWatcher.documentStore Toy.world_stale))
    by (repeat constructor).
  assert (H2 : (Spec.count_path Toy.path_a
                  (DocumentStore.metadata (FileWatcher.documentStore Toy.world_stale))
                <= 1)%nat) by (vm_compute; lia).
  assert (H3 : Spec.live Toy.path_a (FileWatcher.documentStore Toy.world_stale)
                 (FileWatcher.disk Toy.world_stale) = false)
    by (vm_compute; reflexivity).
  split; [exact H1|]. split; [exact H2|]. split; [exact H3|].
  exact (handleFileChanged_as_added (Toy.processor (Js.lit "hello"))
           (Toy.env (Js.lit "b")) Toy.path_a Toy.world_stale H1 H2 H3).
Defined.

Lemma handleFileDeleted_index_witness :
  Spec.store_keyed (FileWatcher.documentStore Toy.world_stale)
  /\ DocumentStore.find_by_path Toy.path_a
       (DocumentStore.metadata (FileWatcher.documentStore Toy.world_stale))
     = Some Toy.doc_a
  /\ let w' :=
       FileWatcher.handleFileDeleted (Toy.env (Js.lit "x")) Toy.path_a Toy.world_stale in
     JsMap.get (doc_id Toy.doc_a)
       (DocumentStore.metadata (FileWatcher.documentStore w')) = None
     /\ if access
            (DocumentStore.docPath (FileWatcher.documentStore Toy.world_stale)
               (doc_id Toy.doc_a))
            (FileWatcher.disk Toy.world_stale)
          && write_ok (Toy.env (Js.lit "x"))
               (DocumentStore.metadataPath (FileWatcher.documentStore Toy.world_stale))
        then JsMap.get (doc_id Toy.doc_a)
               (SearchIndex.documents (FileWatcher.searchIndex w')) = None
        else FileWatcher.searchIndex w' = FileWatcher.searchIndex Toy.world_stale.
Proof.
  assert (H1 : Spec.store_keyed (FileWatcher.documentStore Toy.world_stale))
    by (repeat constructor).
  assert (H2 : DocumentStore.find_by_path Toy.path_a
                 (DocumentStore.metadata (FileWatcher.documentStore Toy.world_stale))
               = Some Toy.doc_a) by (vm_compute; reflexivity).
  split; [exact H1|]. split; [exact H2|].
  exact (handleFileDeleted_index (Toy.env (Js.lit "x")) Toy.path_a Toy.world_stale
           Toy.doc_a H1 H2).
Defined.

Lemma initialize_syncs_witness :
  Spec.store_keyed (FileWatcher.documentStore Toy.world_restart)
  /\ Spec.unique_keys
       (DocumentStore.metadata (FileWatcher.documentStore Toy.world_restart))
  /\ match Server.initialize true (Toy.env (Js.lit "x")) Toy.world_restart with
     | None => true = false
     | Some w' =>
         true = true
         /\ FileWatcher.documentStore w'
            = DocumentStore.loadMetadata (FileWatcher.documentStore Toy.world_restart)
                (FileWatcher.disk Toy.world_restart)
         /\ JsMap.get (Js.lit "b") (SearchIndex.documents (FileWatcher.searchIndex w'))
            = SearchIndex.entry_of
                <$> JsMap.get (Js.lit "b")
                      (DocumentStore.metadata (FileWatcher.documentStore w'))
         /\ Spec.index_tracks (FileWatcher.searchIndex w')
     end.
Proof.
  assert (H1 : Spec.store_keyed (FileWatcher.documentStore Toy.world_restart))
    by constructor.
  assert (H2 : Spec.unique_keys
                 (DocumentStore.metadata (FileWatcher.documentStore Toy.world_restart)))
    by apply NoDup_nil_2.
  split; [exact H1|]. split; [exact H2|].
  exact (initialize_syncs true (Toy.env (Js.lit "x")) Toy.world_restart (Js.lit "b")
           H1 H2).
Defined.

Lemma handleFileChanged_updates_witness :
  let X := Toy.processor (Js.lit "new text") in
  let E := Toy.env (Js.lit "x") in
  let w' := FileWatcher.handleFileChanged X E Toy.path_a Toy.world_a in
  Spec.store_keyed (FileWatcher.documentStore Toy.world_a)
  /\ Spec.unique_keys (DocumentStore.metadata (FileWatcher.documentStore Toy.world_a))
  /\ DocumentStore.find_by_path Toy.path_a
       (DocumentStore.metadata (FileWatcher.documentStore Toy.world_a)) = Some Toy.doc_a
  /\ exists updated,
       JsMap.get (Js.lit "a") (DocumentStore.metadata (FileWatcher.documentStore w'))
       = Some updated
       /\ doc_content updated = Js.lit "new text"
       /\ md_size (doc_metadata updated) = md_size (doc_metadata Toy.doc_a)
       /\ JsMap.get (Js.lit "a") (SearchIndex.documents (FileWatcher.searchIndex w'))
          = Some (SearchIndex.entry_of updated).
Proof.
  intros X E w'.
  assert (H1 : Spec.store_keyed (FileWatcher.documentStore Toy.world_a))
    by (repeat constructor).
  assert (H2 : Spec.unique_keys
                 (DocumentStore.metadata (FileWatcher.documentStore Toy.world_a)))
    by apply NoDup_singleton.
  assert (H3 : DocumentStore.find_by_path Toy.path_a
                 (DocumentStore.metadata (FileWatcher.documentStore Toy.world_a))
               = Some Toy.doc_a) by reflexivity.
  split; [exact H1|]. split; [exact H2|]. split; [exact H3|].
  destruct (handleFileChanged_updates X E Toy.path_a Toy.world_a Toy.doc_a
              (Toy.extracted (Js.lit "new text")) H1 H2 eq_refl H3 eq_refl eq_refl
              eq_refl)
    as (updated & Hg & _ & _ & _ & _ & Hc & _ & Hs & _ & Hi).
  exists updated. split; [exact Hg|]. split; [exact Hc|]. split; [exact Hs|].
  exact (Hi eq_refl).
Defined.

Lemma search_failure_is_primitive_witness :
  (SearchIndex.search Toy.failing_index (Js.lit "fox") 10).1 = Failure Caught
  /\ Caught = Caught
  /\ exists idx,
       SearchIndex.index Toy.failing_index = Some idx
       /\ lunr_search Toy.failing idx (SearchIndex.cleanQuery (Js.lit "fox")) = None.
Proof.
  assert (H : (SearchIndex.search Toy.failing_index (Js.lit "fox") 10).1
              = Failure Caught) by (vm_compute; reflexivity).
  split; [exact H|].
  exact (search_failure_is_primitive Toy.failing_index (Js.lit "fox") 10 Caught H).
Defined.

Lemma search_without_terms_witness :
  Forall (fun c => Spec.is_term_char c = false) (Js.lit "?!")
  /\ SearchIndex.cleanQuery (Js.lit "?!") = []
  /\ SearchIndex.search Toy.indexed_a.1.2 (Js.lit "?!") 10 = (Success [], []).
Proof.
  assert (H : Forall (fun c => Spec.is_term_char c = false) (Js.lit "?!"))
    by (repeat constructor).
  split; [exact H|].
  exact (search_without_terms Toy.indexed_a.1.2 (Js.lit "?!") 10 H).
Defined.
